(** * CIS benchmark converter: extraction and report building

    A shallow embedding of [cis_pdf_to_excel_converter.py].

    - The input is the text of the pages, as [extract_text] of the PDF
      reader gives it.  A text is a list of 8-bit characters; the classes
      [\s] and [\d], [str.strip] and [int] are those of Python on that
      range, and lengths and positions count characters from 0.
    - The regular expressions of the source are kept as syntax trees and
      run by a backtracking matcher with the priorities of Python's [re]:
      leftmost start, ordered alternation, greedy and lazy repetition,
      numbered groups.
    - A dictionary is a list of keys and values in the order of insertion.
    - The workbook is the list of its sheets; a sheet has the name it was
      created with, its rows of cell values and the row heights that were
      set.  Fonts, fills, borders and column widths are left out.
    - [int] on a string that is not a number is the one failure that the
      code after the reading of the PDF can raise; it is a result
      [ValueError]. *)

From Stdlib Require Import Ascii String.
From Stdlib Require Import List ZArith Lia Bool Arith PeanoNat.
From Stdlib Require Import Permutation Sorted.
Import ListNotations.

Set Implicit Arguments.

Local Open Scope nat_scope.
Local Open Scope list_scope.

(** ** Text *)

Definition text := list ascii.

(** A string literal of the source, as text. *)
Definition str (s : string) : text := list_ascii_of_string s.

Definition ascii_eq_dec := Ascii.ascii_dec.
Definition text_eq_dec : forall a b : text, {a = b} + {a <> b} :=
  list_eq_dec ascii_eq_dec.

Definition text_eqb (a b : text) : bool :=
  if text_eq_dec a b then true else false.

Definition code (a : ascii) : nat := nat_of_ascii a.

Definition nl : ascii := ascii_of_nat 10.

(** [str.isspace] and the class [\s] on the 8-bit range: tab to carriage
    return, the four separators 0x1c..0x1f, space, NEL and no-break space. *)
Definition isspace (a : ascii) : bool :=
  let n := code a in
  ((9 <=? n) && (n <=? 13)) || ((28 <=? n) && (n <=? 32))
  || (n =? 133) || (n =? 160).

(** The class [\d] on the 8-bit range. *)
Definition isdigit (a : ascii) : bool :=
  let n := code a in (48 <=? n) && (n <=? 57).

(** The class [[A-Z]]. *)
Definition isupper (a : ascii) : bool :=
  let n := code a in (65 <=? n) && (n <=? 90).

Definition lower (a : ascii) : ascii :=
  if isupper a then ascii_of_nat (code a + 32) else a.

(** [s.strip()] *)
Fixpoint lstrip (s : text) : text :=
  match s with
  | a :: s' => if isspace a then lstrip s' else s
  | [] => []
  end.

Definition strip (s : text) : text := rev (lstrip (rev (lstrip s))).

(** [s[a:b]] for [0 <= a], [0 <= b]. *)
Definition slice (s : text) (a b : nat) : text := firstn (b - a) (skipn a s).

(** [s.split(c)] for a one-character separator. *)
Fixpoint split (c : ascii) (s : text) : list text :=
  match s with
  | [] => [[]]
  | a :: s' =>
      if Ascii.eqb a c then [] :: split c s'
      else match split c s' with
           | w :: ws => (a :: w) :: ws
           | [] => [[a]]
           end
  end.

(** ** Regular expressions *)

Inductive regex : Type :=
| Eps : regex
| Cls : (ascii -> bool) -> regex          (* one character of a class *)
| Bol : regex                             (* [^] without MULTILINE *)
| Seq : regex -> regex -> regex
| Alt : regex -> regex -> regex           (* ordered: left first *)
| Rep : bool -> regex -> regex            (* [r*] (true) and [r*?] (false) *)
| Grp : nat -> regex -> regex.            (* capturing group number n *)

Definition chr (c : ascii) : regex := Cls (Ascii.eqb c).
(** A literal character under IGNORECASE. *)
Definition chr_i (c : ascii) : regex := Cls (fun a => Ascii.eqb (lower a) (lower c)).

Fixpoint lit_of (f : ascii -> regex) (s : text) : regex :=
  match s with
  | [] => Eps
  | [c] => f c
  | c :: s' => Seq (f c) (lit_of f s')
  end.

Definition lit (s : string) : regex := lit_of chr (str s).
Definition lit_i (s : string) : regex := lit_of chr_i (str s).

Definition star (r : regex) : regex := Rep true r.
Definition plus (r : regex) : regex := Seq r (Rep true r).
Definition plus_lazy (r : regex) : regex := Seq r (Rep false r).
Definition opt (r : regex) : regex := Alt r Eps.

Definition ws : regex := Cls isspace.                         (* \s *)
Definition digit : regex := Cls isdigit.                      (* \d *)
Definition upper : regex := Cls isupper.                      (* [A-Z] *)
Definition any : regex := Cls (fun _ => true).                (* . with DOTALL *)
Definition not_nl : regex := Cls (fun a => negb (Ascii.eqb a nl)). (* . and [^\n] *)

Declare Scope regex_scope.
Delimit Scope regex_scope with re.
Bind Scope regex_scope with regex.
Infix ">>" := Seq (at level 41, right associativity) : regex_scope.
Infix "<|>" := Alt (at level 51, right associativity) : regex_scope.

(** Spans of the groups set so far, the latest first. *)
Definition caps := list (nat * (nat * nat)).

Fixpoint span_of (n : nat) (c : caps) : option (nat * nat) :=
  match c with
  | [] => None
  | (k, sp) :: c' => if k =? n then Some sp else span_of n c'
  end.

(** ** The matcher

    [run r s i c k] matches [r] at position [i], where [s] is the text from
    [i] on, and hands what is left to [k]; alternatives are tried in the
    order of [re].  A repetition takes another round only when the round
    moved forward, so the number of rounds is at most the length of [s]. *)

Section Matcher.
Variable A : Type.

Definition cont := text -> nat -> caps -> option A.

(** The rounds of a repetition whose body is run by [body]: greedy takes
    a round before it tries to go on, lazy tries to go on first. *)
Fixpoint rounds (body : text -> nat -> caps -> cont -> option A)
  (greedy : bool) (k : cont) (n : nat) (s : text) (i : nat) (c : caps)
  {struct n} : option A :=
  match n with
  | 0 => k s i c
  | S n' =>
      let next : cont :=
        fun s' i' c' =>
          if i <? i' then rounds body greedy k n' s' i' c' else None in
      if greedy then
        match body s i c next with
        | Some x => Some x
        | None => k s i c
        end
      else
        match k s i c with
        | Some x => Some x
        | None => body s i c next
        end
  end.

Fixpoint run (r : regex) (s : text) (i : nat) (c : caps) (k : cont)
  {struct r} : option A :=
  match r with
  | Eps => k s i c
  | Cls p =>
      match s with
      | a :: s' => if p a then k s' (S i) c else None
      | [] => None
      end
  | Bol => if i =? 0 then k s i c else None
  | Seq r1 r2 => run r1 s i c (fun s' i' c' => run r2 s' i' c' k)
  | Alt r1 r2 =>
      match run r1 s i c k with
      | Some x => Some x
      | None => run r2 s i c k
      end
  | Rep greedy r1 => rounds (run r1) greedy k (length s) s i c
  | Grp n r1 => run r1 s i c (fun s' i' c' => k s' i' ((n, (i, i')) :: c'))
  end.
End Matcher.

(** A match object: where it starts, where it ends, the spans of its groups. *)
Record rmatch : Type := RMatch {
  m_start : nat;
  m_end : nat;
  m_caps : caps
}.

(** [re.match] at position [i] of a text whose rest is [s]. *)
Definition match_at (r : regex) (s : text) (i : nat) : option rmatch :=
  run r s i [] (fun _ e c => Some (RMatch i e c)).

(** The scan of [re.search], from position [i] on. *)
Fixpoint search_from (r : regex) (s : text) (i : nat) : option rmatch :=
  match match_at r s i with
  | Some m => Some m
  | None =>
      match s with
      | [] => None
      | _ :: s' => search_from r s' (S i)
      end
  end.

(** [re.search(r, t)] *)
Definition search (r : regex) (t : text) : option rmatch := search_from r t 0.

(** [m.group(n)]; a group that took no part gives the empty text. *)
Definition group (t : text) (m : rmatch) (n : nat) : text :=
  match span_of n (m_caps m) with
  | Some (a, b) => slice t a b
  | None => []
  end.

(** [re.finditer(r, t)]: the matches from left to right, each search starting
    where the last match ended (one further after an empty match). *)
Fixpoint finditer_from (fuel : nat) (r : regex) (t : text) (i : nat)
  : list rmatch :=
  match fuel with
  | 0 => []
  | S fuel' =>
      if length t <? i then []
      else
        match search_from r (skipn i t) i with
        | None => []
        | Some m =>
            m :: finditer_from fuel' r t
                   (if m_start m <? m_end m then m_end m else S (m_end m))
        end
  end.

Definition finditer (r : regex) (t : text) : list rmatch :=
  finditer_from (S (length t)) r t 0.

(** ** The patterns of the source *)

Fixpoint alts (rs : list regex) : regex :=
  match rs with
  | [] => Eps
  | [r] => r
  | r :: rs' => Alt r (alts rs')
  end.

(** [CIS\s+(.+?)\s+Benchmark], IGNORECASE *)
Definition title_pattern : regex :=
  (lit_i "CIS" >> plus ws >> Grp 1 (plus_lazy not_nl) >> plus ws
   >> lit_i "Benchmark")%re.

(** [v(\d+\.\d+\.\d+)] *)
Definition version_pattern : regex :=
  (lit "v" >> Grp 1 (plus digit >> lit "." >> plus digit >> lit "."
                     >> plus digit))%re.

(** [\n1\.1(?:\.\d+)?\s+[A-Z]] *)
Definition start_pattern : regex :=
  (chr nl >> lit "1.1" >> opt (lit "." >> plus digit) >> plus ws >> upper)%re.

(** [\d+(?:\.\d+)+] *)
Definition num_pattern : regex :=
  (plus digit >> plus (lit "." >> plus digit))%re.

(** [Automated|Manual|Scored|Not Scored] *)
Definition status_pattern : regex :=
  alts [lit "Automated"; lit "Manual"; lit "Scored"; lit "Not Scored"].

(** [(?:^|\n)(\d+(?:\.\d+)+)\s+([A-Z][^\n]+?)\s*\((Automated|Manual|Scored|Not Scored)\)] *)
Definition header_pattern : regex :=
  ((Bol <|> chr nl) >> Grp 1 num_pattern >> plus ws
   >> Grp 2 (upper >> plus_lazy not_nl) >> star ws
   >> lit "(" >> Grp 3 status_pattern >> lit ")")%re.

(** [•?\s*(Level \d+|Profile Applicability)]; the bullet is not an 8-bit
    character, so the optional bullet matches nothing of a text. *)
Definition profile_pattern : regex :=
  (opt (Cls (fun _ => false)) >> star ws
   >> Grp 1 ((lit "Level " >> plus digit) <|> lit "Profile Applicability"))%re.

(** [<label>\s*(.+?)(?:\n<end1>|\n<end2>|...)], DOTALL *)
Definition field_pattern (label : string) (ends : list string) : regex :=
  (lit label >> star ws >> Grp 1 (plus_lazy any)
   >> alts (map (fun e => chr nl >> lit e) ends))%re.

Definition description_pattern :=
  field_pattern "Description:" ["Rationale:"; "Impact:"; "Audit:"]%string.
Definition rationale_pattern :=
  field_pattern "Rationale:" ["Impact:"; "Audit:"]%string.
Definition impact_pattern :=
  field_pattern "Impact:" ["Audit:"; "Remediation:"]%string.
Definition audit_pattern :=
  field_pattern "Audit:" ["Remediation:"; "Default Value:"]%string.
Definition remediation_pattern :=
  field_pattern "Remediation:" ["Default Value:"; "Impact:"; "References:"]%string.
Definition default_pattern :=
  field_pattern "Default Value:" ["References:"; "CIS Controls:"]%string.
Definition references_pattern :=
  field_pattern "References:" ["CIS Controls:"; "Additional Information:"]%string.

(** ** The extractor *)

Record recommendation : Type := Recommendation {
  num : text;
  title : text;
  profile : text;
  status : text;
  description : text;
  rationale : text;
  impact : text;
  audit : text;
  remediation : text;
  default_value : text;
  references : text
}.

(** [m.group(1).strip() if m else ""] for [m = re.search(r, content)] *)
Definition field_of (r : regex) (content : text) : text :=
  match search r content with
  | Some m => strip (group content m 1)
  | None => []
  end.

Definition _extract_recommendation_details
  (num title status content : text) : recommendation :=
  let profile :=
    match search profile_pattern content with
    | Some m => group content m 1
    | None => str "Level 1"
    end in
  let description := field_of description_pattern content in
  let rationale := field_of rationale_pattern content in
  let impact := field_of impact_pattern content in
  let audit := field_of audit_pattern content in
  let remediation := field_of remediation_pattern content in
  let default_value := field_of default_pattern content in
  let references := field_of references_pattern content in
  {| num := num;
     title := title;
     profile := profile;
     status := status;
     description := firstn 1500 description;
     rationale := firstn 1000 rationale;
     impact := firstn 1000 impact;
     audit := firstn 2500 audit;
     remediation := firstn 1500 remediation;
     default_value := firstn 500 default_value;
     references := firstn 800 references |}.

(** Truth value of a string. *)
Definition nonempty (s : text) : bool :=
  match s with [] => false | _ => true end.

Definition is_some {A : Type} (o : option A) : bool :=
  match o with Some _ => true | None => false end.

(** Index of the first element that satisfies [p]. *)
Fixpoint find_index {A : Type} (p : A -> bool) (l : list A) : option nat :=
  match l with
  | [] => None
  | x :: l' => if p x then Some 0 else option_map S (find_index p l')
  end.

Definition find_recommendations_start_page (pages : list text) : nat :=
  match find_index (fun t => is_some (search start_pattern t))
                   (firstn (Nat.min 30 (length pages)) pages) with
  | Some page_num => page_num
  | None => 15
  end.

(** The record of one header match on a page. *)
Definition record_of_match (t : text) (m : rmatch) : recommendation :=
  let num := group t m 1 in
  let title := strip (group t m 2) in
  let status := group t m 3 in
  let start_pos := m_end m in
  let content := slice t start_pos (start_pos + 3500) in
  _extract_recommendation_details num title status content.

(** The records a page appends, in the order of its header matches. *)
Definition page_records (t : text) : list recommendation :=
  flat_map (fun m => let rec := record_of_match t m in
                     if nonempty (audit rec) then [rec] else [])
           (finditer header_pattern t).

(** [self.recommendations] when the loop over the pages ends. *)
Definition appended (pages : list text) : list recommendation :=
  flat_map page_records (skipn (find_recommendations_start_page pages) pages).

Fixpoint mem (x : text) (l : list text) : bool :=
  match l with
  | [] => false
  | y :: l' => text_eqb x y || mem x l'
  end.

Fixpoint remove_duplicates_from (seen : list text) (l : list recommendation)
  : list recommendation :=
  match l with
  | [] => []
  | rec :: l' =>
      if mem (num rec) seen then remove_duplicates_from seen l'
      else rec :: remove_duplicates_from (num rec :: seen) l'
  end.

Definition _remove_duplicates (l : list recommendation) : list recommendation :=
  remove_duplicates_from [] l.

(** ** Integer conversion and the sort by number *)

(** What can go wrong after the text is read: [int()] on a string that is
    not a number raises [ValueError]. *)
Inductive result (A : Type) : Type :=
| Ok : A -> result A
| ValueError : result A.

Arguments Ok {A} _.
Arguments ValueError {A}.

Definition bind {A B : Type} (x : result A) (f : A -> result B) : result B :=
  match x with
  | Ok a => f a
  | ValueError => ValueError
  end.

Notation "x <- e1 ;; e2" := (bind e1 (fun x => e2))
  (at level 61, e1 at next level, right associativity).

(** The elements in order; the first failure is the failure of the whole. *)
Fixpoint map_result {A B : Type} (f : A -> result B) (l : list A)
  : result (list B) :=
  match l with
  | [] => Ok []
  | x :: l' => y <- f x ;; ys <- map_result f l' ;; Ok (y :: ys)
  end.

(** The blanks [int()] skips around a number: on the 8-bit range these are
    tab to carriage return, space, NEL and no-break space. *)
Definition int_space (a : ascii) : bool :=
  let n := code a in
  ((9 <=? n) && (n <=? 13)) || (n =? 32) || (n =? 133) || (n =? 160).

Fixpoint lstrip_int (s : text) : text :=
  match s with
  | a :: s' => if int_space a then lstrip_int s' else s
  | [] => []
  end.

Definition digit_value (a : ascii) : Z := Z.of_nat (code a - 48).

(** Digits after the first one; single underscores may separate digits. *)
Fixpoint digits_value (acc : Z) (after_underscore : bool) (s : text)
  : result Z :=
  match s with
  | [] => if after_underscore then ValueError else Ok acc
  | a :: s' =>
      if isdigit a then digits_value (10 * acc + digit_value a) false s'
      else if Ascii.eqb a "_" then
             if after_underscore then ValueError else digits_value acc true s'
           else ValueError
  end%Z.

Definition unsigned_value (s : text) : result Z :=
  match s with
  | a :: s' => if isdigit a then digits_value (digit_value a) false s'
               else ValueError
  | [] => ValueError
  end.

(** [int(s)] for a string [s] *)
Definition py_int (s : text) : result Z :=
  match rev (lstrip_int (rev (lstrip_int s))) with
  | a :: s' =>
      if Ascii.eqb a "+" then unsigned_value s'
      else if Ascii.eqb a "-" then v <- unsigned_value s' ;; Ok (- v)%Z
      else unsigned_value (a :: s')
  | [] => ValueError
  end.

(** [[int(p) for p in x['num'].split('.')]] *)
Definition sort_key (rec : recommendation) : result (list Z) :=
  map_result py_int (split "." (num rec)).

(** [a < b] on lists of integers *)
Fixpoint list_lt (a b : list Z) : bool :=
  match a, b with
  | [], [] => false
  | [], _ :: _ => true
  | _ :: _, [] => false
  | x :: a', y :: b' => if (x =? y)%Z then list_lt a' b' else (x <? y)%Z
  end.

(** A stable sort by key: [list.sort(key=...)] and [sorted(..., key=...)]
    give the one list that is ordered by [<] on the keys and keeps elements
    with equal keys in their order. *)
Section StableSort.
Variables (K A : Type) (lt : K -> K -> bool).

Fixpoint insert (x : K * A) (l : list (K * A)) : list (K * A) :=
  match l with
  | [] => [x]
  | y :: l' => if lt (fst y) (fst x) then y :: insert x l' else x :: l
  end.

Fixpoint stable_sort (l : list (K * A)) : list (K * A) :=
  match l with
  | [] => []
  | x :: l' => insert x (stable_sort l')
  end.
(** [x] may stand before [y]. *)
Definition key_le (x y : K * A) : Prop := lt (fst y) (fst x) = false.

(** [x] has a key that [lt] does not tell from [k]. *)
Definition same_key (k : K) (x : K * A) : bool :=
  negb (lt k (fst x)) && negb (lt (fst x) k).
End StableSort.

(** [recs.sort(key=lambda x: [int(p) for p in x['num'].split('.')])]: the
    keys are computed first, for every element. *)
Definition sort_by_num (recs : list recommendation)
  : result (list recommendation) :=
  keyed <- map_result (fun rec => k <- sort_key rec ;; Ok (k, rec)) recs ;;
  Ok (map snd (stable_sort list_lt keyed)).

Definition extract_recommendations (pages : list text)
  : result (list recommendation) :=
  sort_by_num (_remove_duplicates (appended pages)).

(** One page of the loop of [extract_metadata]: a title match and a version
    match each overwrite what the pages before gave. *)
Definition metadata_step (tv : text * text) (t : text) : text * text :=
  let tv1 :=
    match search title_pattern t with
    | Some m => (str "CIS " ++ group t m 1 ++ str " Benchmark", snd tv)
    | None => tv
    end in
  match search version_pattern t with
  | Some m => (fst tv1, str "v" ++ group t m 1)
  | None => tv1
  end.

(** [self.benchmark_title], [self.benchmark_version] after [extract_metadata] *)
Definition extract_metadata (pages : list text) : text * text :=
  fold_left metadata_step (firstn (Nat.min 5 (length pages)) pages) ([], []).

(** ** Sections *)

(** [rec['num'].split('.')[0]] *)
Definition main_section (rec : recommendation) : text :=
  match split "." (num rec) with
  | w :: _ => w
  | [] => []
  end.

(** The dictionary of sections, in the order in which the keys came in. *)
Definition sections := list (text * list recommendation).

Fixpoint add_to_section (k : text) (rec : recommendation) (d : sections)
  : sections :=
  match d with
  | [] => [(k, [rec])]
  | (k', l) :: d' =>
      if text_eqb k k' then (k', l ++ [rec]) :: d'
      else (k', l) :: add_to_section k rec d'
  end.

Definition organize_by_section (recs : list recommendation) : sections :=
  fold_left (fun d rec => add_to_section (main_section rec) rec d) recs [].

Fixpoint lookup (k : text) (d : sections) : option (list recommendation) :=
  match d with
  | [] => None
  | (k', l) :: d' => if text_eqb k k' then Some l else lookup k d'
  end.

(** ** The workbook *)

Inductive cell : Type :=
| CStr : text -> cell
| CInt : Z -> cell.

(** A sheet: its name, its rows from row 1 on, and the heights set in
    [row_dimensions] (row number, height), the latest first. *)
Record sheet : Type := Sheet {
  sheet_name : text;
  rows : list (list cell);
  heights : list (nat * Z)
}.

(** [wb.create_sheet(name)]: a sheet without rows. *)
Definition new_sheet (name : text) : sheet :=
  {| sheet_name := name; rows := []; heights := [] |}.

(** [ws.append(data)]: the data fill the row after the last row.  The first
    rows of a sheet are written with [ws.cell(1, 1, v)], [ws.cell(2, 1, v)];
    on a sheet without these rows that is [append_row] with the one value. *)
Definition append_row (ws : sheet) (data : list cell) : sheet :=
  {| sheet_name := sheet_name ws;
     rows := rows ws ++ [data];
     heights := heights ws |}.

(** [ws.row_dimensions[row].height = h] *)
Definition set_height (ws : sheet) (row : nat) (h : Z) : sheet :=
  {| sheet_name := sheet_name ws;
     rows := rows ws;
     heights := (row, h) :: heights ws |}.

(** [ws.row_dimensions[row].height] *)
Fixpoint height_of (hs : list (nat * Z)) (row : nat) : option Z :=
  match hs with
  | [] => None
  | (r, h) :: hs' => if r =? row then Some h else height_of hs' row
  end.

Definition SECTION_NAMES : list (text * text) :=
  [ (str "1", str "Initial Setup");
    (str "2", str "System Configuration");
    (str "3", str "Network & Services");
    (str "4", str "Security Profiles");
    (str "5", str "Access Control");
    (str "6", str "Authentication");
    (str "7", str "Logging & Monitoring");
    (str "8", str "System Maintenance");
    (str "9", str "Additional Hardening") ].

Fixpoint get (k : text) (d : list (text * text)) : option text :=
  match d with
  | [] => None
  | (k', v) :: d' => if text_eqb k k' then Some v else get k d'
  end.

(** [self.SECTION_NAMES.get(sec_num, f'Section {sec_num}')] *)
Definition section_name (sec_num : text) : text :=
  match get sec_num SECTION_NAMES with
  | Some n => n
  | None => str "Section " ++ sec_num
  end.

(** [f"{sec_num}. {sec_name}"[:31]] *)
Definition sheet_name_of (sec_num sec_name : text) : text :=
  firstn 31 (sec_num ++ str ". " ++ sec_name).

(** [sorted(sections.keys(), key=int)] *)
Definition sorted_keys (d : sections) : result (list text) :=
  keyed <- map_result (fun k => n <- py_int k ;; Ok (n, k)) (map fst d) ;;
  Ok (map snd (stable_sort Z.ltb keyed)).

(** [sections[sec_num]] for a key of the dictionary *)
Definition section_recs (d : sections) (sec_num : text)
  : list recommendation :=
  match lookup sec_num d with
  | Some l => l
  | None => []
  end.

(** The title of the index sheet: a bookmark emoji (here its UTF-8 bytes),
    a space and INDEX. *)
Definition index_title : text :=
  map ascii_of_nat [240; 159; 147; 145] ++ str " INDEX".

Section Generator.
(** [self.benchmark_title], [self.benchmark_version] and the date of the
    run as [strftime("%Y-%m-%d")] gives it. *)
Variables (benchmark_title benchmark_version today : text).

(** The row of a section in the index sheet. *)
Definition index_row (d : sections) (sec_num : text) : list cell :=
  let sec_name := section_name sec_num in
  let sec_recs := section_recs d sec_num in
  let sheet_name := sheet_name_of sec_num sec_name in
  [CStr sec_num; CStr sec_name; CInt (Z.of_nat (length sec_recs));
   CStr sheet_name; CStr []].

(** The loop over the sections: the sheet and the counter [row]. *)
Definition index_step (d : sections) (st : sheet * nat) (sec_num : text)
  : sheet * nat :=
  let (ws, row) := st in
  let ws := append_row ws (index_row d sec_num) in
  let ws := set_height ws row 30 in
  (ws, row + 1).

Definition create_index_sheet (d : sections) : result sheet :=
  let ws := new_sheet index_title in
  let ws := append_row ws
              [CStr (benchmark_title ++ str " " ++ benchmark_version)] in
  let ws := set_height ws 1 40 in
  let ws := append_row ws
              [CStr (str "Audit Checklist - Generated on " ++ today)] in
  let ws := set_height ws 2 25 in
  let ws := append_row ws [] in
  let headers := [str "Section"; str "Section Name"; str "Controls";
                  str "Tab Name"; str "Description"] in
  let ws := append_row ws (map CStr headers) in
  keys <- sorted_keys d ;;
  Ok (fst (fold_left (index_step d) keys (ws, 5))).

(** The "Description & Impact" cell. *)
Definition desc_full (rec : recommendation) : text :=
  let d0 := description rec in
  let d1 := if nonempty (rationale rec)
            then d0 ++ nl :: nl :: str "RATIONALE:" ++ nl :: rationale rec
            else d0 in
  if nonempty (impact rec)
  then d1 ++ nl :: nl :: str "IMPACT:" ++ nl :: impact rec
  else d1.

Definition max3 (a b c : nat) : nat := Nat.max (Nat.max a b) c.

Definition _add_recommendation_row (ws : sheet) (row : nat)
  (rec : recommendation) : sheet :=
  let data :=
    map CStr [num rec; title rec; profile rec; desc_full rec; audit rec;
              remediation rec; default_value rec; references rec] in
  let ws := append_row ws data in
  let max_lines :=
    max3 (length (split nl (desc_full rec)))
         (length (split nl (audit rec)))
         (length (split nl (remediation rec))) in
  set_height ws row (Z.min (Z.max (Z.of_nat max_lines * 14) 80) 350).

(** The loop over the recommendations: the sheet and the counter [row]. *)
Definition section_step (st : sheet * nat) (rec : recommendation)
  : sheet * nat :=
  let (ws, row) := st in (_add_recommendation_row ws row rec, row + 1).

Definition create_section_sheet
  (section_num section_name : text) (recs : list recommendation) : sheet :=
  let sheet_name := sheet_name_of section_num section_name in
  let ws := new_sheet sheet_name in
  let title := benchmark_title ++ str " - Section " ++ section_num
               ++ str ": " ++ section_name in
  let ws := append_row ws [CStr title] in
  let ws := set_height ws 1 35 in
  let headers := [str "#"; str "Control Title"; str "Level";
                  str "Description & Impact"; str "Audit Steps (CLI & GUI)";
                  str "Remediation"; str "Default Value";
                  str "References/Status"] in
  let ws := append_row ws (map CStr headers) in
  let ws := set_height ws 2 40 in
  fst (fold_left section_step recs (ws, 3)).

(** The sheets of the workbook that [generate] saves: the index, then one
    sheet per section. *)
Definition generate (d : sections) : result (list sheet) :=
  index <- create_index_sheet d ;;
  keys <- sorted_keys d ;;
  Ok (index
      :: map (fun sec_num =>
                create_section_sheet sec_num (section_name sec_num)
                                     (section_recs d sec_num))
             keys).
End Generator.

(** [main], from the text of the pages to the sheets of the workbook. *)
Definition convert (today : text) (pages : list text) : result (list sheet) :=
  let (benchmark_title, benchmark_version) := extract_metadata pages in
  recs <- extract_recommendations pages ;;
  let d := organize_by_section recs in
  _ <- sorted_keys d ;;
  generate benchmark_title benchmark_version today d.

(** * Specification

    What the properties below speak about: the meaning of a match, the
    shape of a number, the order of the list, the sheets, and the inputs of
    the examples. *)

(** ** Matches *)

(** [Match r s i c s' i' c']: [r] can match at position [i], where the text
    goes on with [s], and end at position [i'], where the text goes on with
    [s'], turning the group spans [c] into [c']. *)
Inductive Match : regex -> text -> nat -> caps -> text -> nat -> caps -> Prop :=
| MEps : forall s i c, Match Eps s i c s i c
| MCls : forall p a s i c, p a = true -> Match (Cls p) (a :: s) i c s (S i) c
| MBol : forall s c, Match Bol s 0 c s 0 c
| MSeq : forall r1 r2 s i c s1 i1 c1 s2 i2 c2,
    Match r1 s i c s1 i1 c1 -> Match r2 s1 i1 c1 s2 i2 c2 ->
    Match (Seq r1 r2) s i c s2 i2 c2
| MAltL : forall r1 r2 s i c s1 i1 c1,
    Match r1 s i c s1 i1 c1 -> Match (Alt r1 r2) s i c s1 i1 c1
| MAltR : forall r1 r2 s i c s1 i1 c1,
    Match r2 s i c s1 i1 c1 -> Match (Alt r1 r2) s i c s1 i1 c1
| MRepZero : forall g r s i c, Match (Rep g r) s i c s i c
| MRepRound : forall g r s i c s1 i1 c1 s2 i2 c2,
    Match r s i c s1 i1 c1 -> i < i1 -> Match (Rep g r) s1 i1 c1 s2 i2 c2 ->
    Match (Rep g r) s i c s2 i2 c2
| MGrp : forall n r s i c s1 i1 c1,
    Match r s i c s1 i1 c1 -> Match (Grp n r) s i c s1 i1 ((n, (i, i1)) :: c1).

#[local] Hint Constructors Match : core.

(** A runner whose every answer comes from a match handed to the
    continuation. *)
Definition sound_for (A : Type) (r : regex)
  (body : text -> nat -> caps -> cont A -> option A) : Prop :=
  forall s i c k x,
    body s i c k = Some x ->
    exists s' i' c', Match r s i c s' i' c' /\ k s' i' c' = Some x.

(** The words of a pattern, with groups and anchors forgotten. *)
Fixpoint lang (r : regex) (w : text) : Prop :=
  match r with
  | Eps => w = []
  | Cls p => exists a, w = [a] /\ p a = true
  | Bol => w = []
  | Seq r1 r2 => exists w1 w2, w = w1 ++ w2 /\ lang r1 w1 /\ lang r2 w2
  | Alt r1 r2 => lang r1 w \/ lang r2 w
  | Rep _ r1 => exists ws, w = concat ws /\ Forall (lang r1) ws
  | Grp _ r1 => lang r1 w
  end.

(** The numbers of the groups of a pattern. *)
Fixpoint groups (r : regex) : list nat :=
  match r with
  | Eps | Cls _ | Bol => []
  | Seq r1 r2 | Alt r1 r2 => groups r1 ++ groups r2
  | Rep _ r1 => groups r1
  | Grp n r1 => n :: groups r1
  end.

(** ** Numbers, labels and limits *)

(** A non-empty string of decimal digits. *)
Definition digits1 (w : text) : Prop := w <> [] /\ forallb isdigit w = true.

(** Every component between dots is a non-empty string of digits. *)
Definition num_ok (w : text) : Prop := Forall digits1 (split "." w).

Fixpoint prefix_of (w s : text) : bool :=
  match w, s with
  | [], _ => true
  | _ :: _, [] => false
  | a :: w', b :: s' => Ascii.eqb a b && prefix_of w' s'
  end.

(** [w in s] *)
Fixpoint occurs (w s : text) : bool :=
  prefix_of w s || match s with
                   | [] => false
                   | _ :: s' => occurs w s'
                   end.

Definition within_limits (rec : recommendation) : Prop :=
  length (description rec) <= 1500 /\ length (rationale rec) <= 1000 /\
  length (impact rec) <= 1000 /\ length (audit rec) <= 2500 /\
  length (remediation rec) <= 1500 /\ length (default_value rec) <= 500 /\
  length (references rec) <= 800.

(** ** Order *)

(** [a] has the key [k]. *)
Definition has_key (k : list Z) (a : recommendation) : bool :=
  match sort_key a with
  | Ok k' => if list_eq_dec Z.eq_dec k k' then true else false
  | ValueError => false
  end.

(** The key of [b] is not below the key of [a]. *)
Definition rec_le (a b : recommendation) : Prop :=
  forall ka kb, sort_key a = Ok ka -> sort_key b = Ok kb ->
                list_lt kb ka = false.

(** The key of [a] is below the key of [b]. *)
Definition key_lt (a b : recommendation) : Prop :=
  exists ka kb, sort_key a = Ok ka /\ sort_key b = Ok kb /\
                list_lt ka kb = true.

Definition keyed_ok (p : list Z * recommendation) : Prop :=
  sort_key (snd p) = Ok (fst p).

(** [a] stands before [b] in [l]. *)
Definition precedes {A : Type} (l : list A) (a b : A) : Prop :=
  exists l1 l2 l3, l = l1 ++ a :: l2 ++ b :: l3.

(** ** Sections and sheets *)

(** [rec] belongs to the section [k]. *)
Definition in_section (k : text) (rec : recommendation) : bool :=
  text_eqb (main_section rec) k.

(** Number of lines of a text: one more than its line breaks. *)
Definition line_count (s : text) : nat := S (count_occ ascii_eq_dec s nl).

(** The height the specification gives to the row of a record. *)
Definition height_spec (rec : recommendation) : Z :=
  let max_lines :=
    Nat.max (Nat.max (line_count (desc_full rec)) (line_count (audit rec)))
            (line_count (remediation rec)) in
  Z.min (Z.max (Z.of_nat max_lines * 14) 80) 350.

(** The cells of the row of a record. *)
Definition data_row (rec : recommendation) : list cell :=
  map CStr [num rec; title rec; profile rec; desc_full rec; audit rec;
            remediation rec; default_value rec; references rec].

(** ** Inputs of the examples *)

(** Lines of text, each ended by a line break. *)
Definition lines (l : list string) : text :=
  concat (map (fun s => str s ++ [nl]) l).

(** The claim on the order as the specification words it: in the final list
    [a] stands before [b] exactly when the key of [a] is below the key of
    [b]. *)
Definition ordered_iff_key_lt (pages : list text) : Prop :=
  forall recs, extract_recommendations pages = Ok recs ->
  forall a b, In a recs -> In b recs -> (precedes recs a b <-> key_lt a b).

(** A page with the numbers 1.1 and 1.01: two strings, one list of integers. *)
Definition page_tie : text :=
  nl :: lines ["1.1 Alpha (Automated)"; "Audit: a"; "Remediation: r";
               "1.01 Beta (Manual)"; "Audit: b"; "Remediation: r"]%string.

(** A page whose header is followed by an audit label with blanks only. *)
Definition blank_audit_page : text :=
  nl :: str "1.1 Alpha (Manual)" ++ nl :: str "Audit: "
  ++ nl :: str "Remediation: x" ++ nl :: str "References:".

(** A dictionary with a long section number and a section of the table. *)
Definition sections_example : sections :=
  [(str "1234567890123456789012345", []); (str "1", [])].

(** The header line and the four field lines, with line breaks between them. *)
Definition example_block : text :=
  str "1.1 Disable unused filesystems (Automated)"
  ++ nl :: str "Description: Do not mount cramfs."
  ++ nl :: str "Rationale: Reduces attack surface."
  ++ nl :: str "Audit: Run modprobe -n -v cramfs."
  ++ nl :: str "Remediation: Edit /etc/modprobe.d/cramfs.conf.".

(** What the specification expects of a page that holds the block: one
    record with these fields, in section 1. *)
Definition example_expected (t : text) : Prop :=
  exists rec,
    extract_recommendations [t] = Ok [rec] /\
    num rec = str "1.1" /\
    title rec = str "Disable unused filesystems" /\
    status rec = str "Automated" /\
    description rec = str "Do not mount cramfs." /\
    rationale rec = str "Reduces attack surface." /\
    audit rec = str "Run modprobe -n -v cramfs." /\
    remediation rec = str "Edit /etc/modprobe.d/cramfs.conf." /\
    default_value rec = [] /\
    references rec = [] /\
    organize_by_section [rec] = [(str "1", [rec])].

(** A page that holds the block after a line break, and nothing else. *)
Definition example_page : text := nl :: example_block.

(** The same page with a line that ends the remediation segment. *)
Definition example_page_closed : text :=
  example_page ++ nl :: str "References:".

Definition example_record (remediation : text) : recommendation :=
  {| num := str "1.1";
     title := str "Disable unused filesystems";
     profile := str "Level 1";
     status := str "Automated";
     description := str "Do not mount cramfs.";
     rationale := str "Reduces attack surface.";
     impact := [];
     audit := str "Run modprobe -n -v cramfs.";
     remediation := remediation;
     default_value := [];
     references := [] |}.

(** ** The start page, in the words of the specification *)

(** A line that opens the recommendations, in the words of the
    specification: 1.1 or 1.1.<digit>, then blanks, then a capital letter. *)
Definition opens_recommendations (line : text) : bool :=
  is_some (match_at (lit "1.1" >> opt (lit "." >> digit) >> plus ws >> upper)%re
                    line 0).

(** The first page of the first 30 with such a line, page 15 without one. *)
Definition start_page_spec (pages : list text) : nat :=
  match find_index (fun t => existsb opens_recommendations (split nl t))
                   (firstn 30 pages) with
  | Some page_num => page_num
  | None => 15
  end.

(** A page whose first line is the header of recommendation 1.1. *)
Definition first_line_page : text :=
  lines ["1.1 Disable unused filesystems (Automated)";
         "Audit: Run modprobe -n -v cramfs.";
         "Remediation: Edit /etc/modprobe.d/cramfs.conf.";
         "References:"]%string.

(** * More of the code *)

(** ** The colour of the Level cell *)

(** The fill that [_add_recommendation_row] gives to the cell of column 3:
    [if 'Level 1' in rec['profile']] ... [elif 'Level 2' in rec['profile']]. *)
Definition level_fill (rec : recommendation) : option text :=
  if occurs (str "Level 1") (profile rec) then Some (str "FFC000")
  else if occurs (str "Level 2") (profile rec) then Some (str "FFFF00")
  else None.

(** ** The output path of [main] *)

(** [s.rfind(c)], [None] for -1 *)
Fixpoint rfind (c : ascii) (s : text) : option nat :=
  match s with
  | [] => None
  | a :: s' =>
      match rfind c s' with
      | Some i => Some (S i)
      | None => if Ascii.eqb a c then Some 0 else None
      end
  end.

(** [Path(p).name] of [pathlib] on a POSIX system: the last component of
    the path that is neither empty nor a single dot, the empty string when
    there is none. *)
Definition path_name (p : text) : text :=
  last (filter (fun x => nonempty x && negb (text_eqb x (str ".")))
               (split "/" p))
       [].

(** [Path(p).stem]: the name without its last suffix; a dot at the start
    or at the end of the name opens no suffix. *)
Definition path_stem (p : text) : text :=
  let name := path_name p in
  match rfind "." name with
  | Some i => if (0 <? i) && (i <? length name - 1) then firstn i name
              else name
  | None => name
  end.

(** The branches of [main] on [args.output_excel] and [args.output]; an
    argument that was not given is [None], and [None] and the empty string
    count as false. *)
Definition output_path (input_pdf : text) (output_excel output : option text)
  : text :=
  match output_excel with
  | Some (a :: s) => a :: s
  | _ =>
      match output with
      | Some (a :: s) => a :: s
      | _ => path_stem input_pdf ++ str "_Audit_Checklist.xlsx"
      end
  end.

(** ** Notions for the further properties *)

(** The span of group [n] in [c] is a word of [g] in the text [t]. *)
Definition reads (t : text) (g : regex) (n : nat) (c : caps) : Prop :=
  exists p w rest,
    span_of n c = Some (p, p + length w) /\ skipn p t = w ++ rest /\ lang g w.

(** [w] is a piece of [t]. *)
Definition part_of (w t : text) : Prop := exists pre post, t = pre ++ w ++ post.

(** A field after [strip] and a cut at [limit]: no blank in front, and no
    blank at the end unless the cut took place. *)
Definition tidy (limit : nat) (f : text) : Prop :=
  lstrip f = f /\ (length f < limit -> strip f = f).

(** [l1] is [l2] with some elements left out. *)
Inductive subseq {A : Type} : list A -> list A -> Prop :=
| subseq_nil : subseq [] []
| subseq_keep : forall x l1 l2, subseq l1 l2 -> subseq (x :: l1) (x :: l2)
| subseq_drop : forall x l1 l2, subseq l1 l2 -> subseq l1 (x :: l2).


(** ** Inputs of further examples *)

(** Four first pages: a title and a version, a title in other letters, a
    version, and a page with neither. *)
Definition metadata_example : list text :=
  [str "CIS Ubuntu Linux Benchmark v1.0.0"; str "cis  Foo benchmark";
   str "draft v2.3.4 of the text"; str "nothing here"].

(** * Properties *)

Ltac splits := repeat match goal with |- _ /\ _ => split end.

Ltac text_cases :=
  unfold text_eqb in *;
  repeat match goal with
         | |- context [text_eq_dec ?a ?b] => destruct (text_eq_dec a b)
         | H : context [text_eq_dec ?a ?b] |- _ => destruct (text_eq_dec a b)
         end; subst; simpl in *; try congruence; auto.

(** ** What a successful run of the matcher means *)

Section Soundness.
Variable A : Type.

Lemma rounds_sound (r : regex) body (g : bool) (k : cont A) :
  sound_for r body ->
  forall n s i c x,
    rounds body g k n s i c = Some x ->
    exists s' i' c', Match (Rep g r) s i c s' i' c' /\ k s' i' c' = Some x.
Proof.
  intros Hbody n; induction n as [|n IH]; intros s i c x H; simpl in H.
  - exists s, i, c; auto.
  - assert (Hround : forall y,
               body s i c
                 (fun s' i' c' =>
                    if i <? i' then rounds body g k n s' i' c' else None)
               = Some y ->
               exists s' i' c',
                 Match (Rep g r) s i c s' i' c' /\ k s' i' c' = Some y).
    { intros y Hy. apply Hbody in Hy.
      destruct Hy as (s1 & i1 & c1 & Hm & Hk).
      destruct (i <? i1) eqn:Hlt; [|discriminate].
      apply Nat.ltb_lt in Hlt.
      apply IH in Hk. destruct Hk as (s2 & i2 & c2 & Hm2 & Hk2).
      exists s2, i2, c2; split; eauto. }
    destruct g.
    + destruct (body s i c _) eqn:E.
      * inversion H; subst. apply Hround; assumption.
      * exists s, i, c; auto.
    + destruct (k s i c) eqn:E.
      * inversion H; subst. exists s, i, c; auto.
      * apply Hround; assumption.
Qed.

Lemma run_sound (r : regex) : sound_for r (@run A r).
Proof.
  induction r as [|p| |r1 IH1 r2 IH2|r1 IH1 r2 IH2|g r1 IH1|n r1 IH1];
    intros s i c k x H; simpl in H.
  - exists s, i, c; auto.
  - destruct s as [|a s']; [discriminate|].
    destruct (p a) eqn:Hp; [|discriminate].
    exists s', (S i), c; auto.
  - destruct (i =? 0) eqn:Hi; [|discriminate].
    apply Nat.eqb_eq in Hi; subst.
    exists s, 0, c; auto.
  - apply IH1 in H. destruct H as (s1 & i1 & c1 & Hm1 & H).
    apply IH2 in H. destruct H as (s2 & i2 & c2 & Hm2 & H).
    exists s2, i2, c2; eauto.
  - destruct (run r1 s i c k) eqn:E.
    + inversion H; subst. apply IH1 in E.
      destruct E as (s1 & i1 & c1 & Hm & Hk). exists s1, i1, c1; eauto.
    + apply IH2 in H.
      destruct H as (s1 & i1 & c1 & Hm & Hk). exists s1, i1, c1; eauto.
  - eapply rounds_sound; eauto.
  - apply IH1 in H. destruct H as (s1 & i1 & c1 & Hm & Hk).
    exists s1, i1, ((n, (i, i1)) :: c1); auto.
Qed.
End Soundness.

(** A match reads a word of the pattern off the text, moves by its length
    and adds spans of the pattern's own groups only. *)
Lemma Match_reads r s i c s' i' c' :
  Match r s i c s' i' c' ->
  exists w new,
    s = w ++ s' /\ i' = i + length w /\ lang r w /\
    c' = new ++ c /\ Forall (fun p => In (fst p) (groups r)) new.
Proof.
  induction 1; simpl.
  - exists [], []; auto.
  - exists [a], []; splits; simpl; eauto; lia.
  - exists [], []; auto.
  - destruct IHMatch1 as (w1 & n1 & -> & -> & L1 & -> & G1).
    destruct IHMatch2 as (w2 & n2 & -> & -> & L2 & -> & G2).
    exists (w1 ++ w2), (n2 ++ n1). rewrite !length_app, <- !app_assoc.
    splits; eauto; [lia|].
    apply Forall_app; split; eapply Forall_impl; eauto; simpl; intros;
      apply in_or_app; auto.
  - destruct IHMatch as (w1 & n1 & -> & -> & L1 & -> & G1).
    exists w1, n1; splits; auto.
    eapply Forall_impl; eauto; simpl; intros; apply in_or_app; auto.
  - destruct IHMatch as (w1 & n1 & -> & -> & L1 & -> & G1).
    exists w1, n1; splits; auto.
    eapply Forall_impl; eauto; simpl; intros; apply in_or_app; auto.
  - exists [], []; splits; auto. exists []; auto.
  - destruct IHMatch1 as (w1 & n1 & -> & -> & L1 & -> & G1).
    destruct IHMatch2 as (w2 & n2 & -> & -> & (ws & -> & L2) & -> & G2).
    exists (w1 ++ concat ws), (n2 ++ n1). rewrite !length_app, <- !app_assoc.
    splits; eauto; [lia| |].
    + exists (w1 :: ws); auto.
    + apply Forall_app; split; auto.
  - destruct IHMatch as (w1 & n1 & -> & -> & L1 & -> & G1).
    exists w1, ((n, (i, i + length w1)) :: n1); splits; auto.
    constructor; simpl; auto.
    eapply Forall_impl; eauto; simpl; intros; auto.
Qed.

Lemma Match_seq_inv r1 r2 s i c s2 i2 c2 :
  Match (Seq r1 r2) s i c s2 i2 c2 ->
  exists s1 i1 c1, Match r1 s i c s1 i1 c1 /\ Match r2 s1 i1 c1 s2 i2 c2.
Proof. inversion 1; subst; eauto. Qed.

Lemma Match_grp_inv n r s i c s1 i1 c' :
  Match (Grp n r) s i c s1 i1 c' ->
  exists c1, c' = (n, (i, i1)) :: c1 /\ Match r s i c s1 i1 c1.
Proof. inversion 1; subst; eauto. Qed.

Lemma match_at_sound r s i m :
  match_at r s i = Some m ->
  m_start m = i /\ exists s', Match r s i [] s' (m_end m) (m_caps m).
Proof.
  unfold match_at; intros H. apply run_sound in H.
  destruct H as (s' & i' & c' & Hm & Hk). inversion Hk; subst; simpl; eauto.
Qed.

Lemma search_from_sound r s : forall i m,
  search_from r s i = Some m ->
  exists k, k <= length s /\ match_at r (skipn k s) (i + k) = Some m.
Proof.
  induction s as [|a s IH]; intros i m H; simpl in H.
  - destruct (match_at r [] i) eqn:E; [|discriminate].
    inversion H; subst. exists 0; rewrite Nat.add_0_r; auto.
  - destruct (match_at r (a :: s) i) eqn:E.
    + inversion H; subst. exists 0; rewrite Nat.add_0_r; simpl; split; auto; lia.
    + apply IH in H. destruct H as (k & Hk & H).
      exists (S k); simpl; split; [lia|].
      replace (i + S k) with (S i + k) by lia; assumption.
Qed.

Lemma finditer_from_sound r t fuel : forall i m,
  In m (finditer_from fuel r t i) ->
  exists a, match_at r (skipn a t) a = Some m.
Proof.
  induction fuel as [|fuel IH]; intros i m H; simpl in H; [contradiction|].
  destruct (length t <? i); [contradiction|].
  destruct (search_from r (skipn i t) i) as [m0|] eqn:E; [|contradiction].
  destruct H as [<-|H].
  - apply search_from_sound in E. destruct E as (k & _ & E).
    rewrite skipn_skipn in E. exists (i + k).
    replace (i + k) with (k + i) at 1 by lia; assumption.
  - eapply IH; eauto.
Qed.

Lemma finditer_sound r t m :
  In m (finditer r t) -> exists a, match_at r (skipn a t) a = Some m.
Proof. apply finditer_from_sound. Qed.

Lemma span_of_app n new sp c :
  ~ In n (map fst new) -> span_of n (new ++ (n, sp) :: c) = Some sp.
Proof.
  induction new as [|[k q] new IH]; simpl; intros H.
  - rewrite Nat.eqb_refl; reflexivity.
  - destruct (k =? n) eqn:E.
    + apply Nat.eqb_eq in E; subst; tauto.
    + apply IH; tauto.
Qed.

Lemma Forall_groups_notin n (gs : list nat) (new : caps) :
  Forall (fun p => In (fst p) gs) new -> ~ In n gs -> ~ In n (map fst new).
Proof.
  induction 1 as [|p new Hp _ IH]; simpl; intros Hn; [tauto|].
  intros [E|E]; subst; tauto.
Qed.

Lemma slice_mid (w0 w s : text) :
  slice (w0 ++ w ++ s) (length w0) (length w0 + length w) = w.
Proof.
  unfold slice. rewrite skipn_app, skipn_all, Nat.sub_diag; simpl.
  replace (length w0 + length w - length w0) with (length w + 0) by lia.
  rewrite firstn_app_2; simpl; apply app_nil_r.
Qed.

Lemma slice_skipn (t : text) a x y :
  slice t (a + x) (a + y) = slice (skipn a t) x y.
Proof.
  unfold slice. rewrite skipn_skipn.
  replace (a + y - (a + x)) with (y - x) by lia.
  replace (x + a) with (a + x) by lia; reflexivity.
Qed.

(** The text of a group that sits between a prefix and a rest of the
    pattern which do not set it again is a word of the group's pattern. *)
Lemma group_of_match pre g post n t a m :
  match_at (Seq pre (Seq (Grp n g) post)) (skipn a t) a = Some m ->
  ~ In n (groups post) ->
  lang g (group t m n).
Proof.
  intros H Hn. apply match_at_sound in H. destruct H as (_ & s' & H).
  apply Match_seq_inv in H. destruct H as (s1 & i1 & c1 & H0 & H).
  apply Match_seq_inv in H. destruct H as (s2 & i2 & c2 & Hg & Hp).
  apply Match_grp_inv in Hg. destruct Hg as (c1' & -> & Hg).
  apply Match_reads in H0. destruct H0 as (w0 & n0 & E0 & -> & _ & _ & _).
  apply Match_reads in Hg. destruct Hg as (w & n1 & -> & -> & L & _ & _).
  apply Match_reads in Hp. destruct Hp as (w2 & n2 & _ & _ & _ & Ec & G).
  unfold group. rewrite Ec, span_of_app by (eapply Forall_groups_notin; eauto).
  rewrite <- Nat.add_assoc, slice_skipn, E0, slice_mid. assumption.
Qed.

(** ** Numbers of the headers *)

Lemma digit_facts a :
  isdigit a = true ->
  int_space a = false /\ isspace a = false /\ Ascii.eqb a "+" = false /\
  Ascii.eqb a "-" = false /\ Ascii.eqb a "." = false /\
  Ascii.eqb a "_" = false.
Proof.
  destruct a as [[] [] [] [] [] [] [] []]; vm_compute; intros H;
    try discriminate H; auto 10.
Qed.

Lemma lang_rep_cls g p w :
  lang (Rep g (Cls p)) w -> forallb p w = true.
Proof.
  simpl; intros (l & -> & H). induction H as [|x l (a & -> & Ha) _ IH]; simpl; auto.
  rewrite Ha; assumption.
Qed.

Lemma lang_plus_digit w : lang (plus digit) w -> digits1 w.
Proof.
  intros (w1 & w2 & -> & (a & -> & Ha) & H). apply lang_rep_cls in H.
  split; simpl; [discriminate|]. rewrite Ha; assumption.
Qed.

Lemma split_digits d rest :
  forallb isdigit d = true ->
  split "." (d ++ "."%char :: rest) = d :: split "." rest.
Proof.
  induction d as [|a d IH]; simpl; intros H; auto.
  apply andb_prop in H. destruct H as [Ha Hd].
  destruct (digit_facts a Ha) as (_ & _ & _ & _ & -> & _).
  rewrite IH by assumption; reflexivity.
Qed.

Lemma split_digits_last d :
  forallb isdigit d = true -> split "." d = [d].
Proof.
  induction d as [|a d IH]; simpl; intros H; auto.
  apply andb_prop in H. destruct H as [Ha Hd].
  destruct (digit_facts a Ha) as (_ & _ & _ & _ & -> & _).
  rewrite IH by assumption; reflexivity.
Qed.

(** A string of digits followed by dotted strings of digits. *)
Lemma dotted_num_ok d (l : list text) :
  digits1 d ->
  Forall (lang (Seq (lit ".") (plus digit))) l ->
  num_ok (d ++ concat l).
Proof.
  intros Hd H; revert d Hd. unfold num_ok.
  induction H as [|x l (w1 & w2 & -> & (a & -> & Ha) & Hx) _ IH]; intros d Hd.
  - simpl. rewrite app_nil_r, split_digits_last by apply Hd. auto.
  - apply lang_plus_digit in Hx.
    apply Ascii.eqb_eq in Ha; subst a. simpl.
    rewrite split_digits by apply Hd. constructor; auto.
Qed.

Lemma lang_num_pattern w : lang num_pattern w -> num_ok w.
Proof.
  intros (d & w2 & -> & Hd & (x & w3 & -> & Hx & (l & -> & Hl))).
  apply lang_plus_digit in Hd.
  change (x ++ concat l) with (concat (x :: l)).
  apply dotted_num_ok; auto.
Qed.

(** The number of every header match is well formed. *)
Lemma header_num_ok t a m :
  match_at header_pattern (skipn a t) a = Some m -> num_ok (group t m 1).
Proof.
  intros H. apply lang_num_pattern.
  eapply group_of_match; [exact H|].
  vm_compute. intuition discriminate.
Qed.

(** ** Integer conversion of a number's components *)

Lemma forallb_rev {A : Type} (p : A -> bool) (l : list A) :
  forallb p (rev l) = forallb p l.
Proof.
  induction l as [|a l IH]; simpl; auto.
  rewrite forallb_app, IH; simpl. rewrite andb_true_r, andb_comm; reflexivity.
Qed.

Lemma lstrip_int_digits w : forallb isdigit w = true -> lstrip_int w = w.
Proof.
  destruct w as [|a w]; simpl; auto. intros H.
  apply andb_prop in H. destruct H as [Ha _].
  destruct (digit_facts a Ha) as (-> & _); reflexivity.
Qed.

Lemma digits_value_ok s : forall acc,
  forallb isdigit s = true -> exists v, digits_value acc false s = Ok v.
Proof.
  induction s as [|a s IH]; simpl; intros acc H; eauto.
  apply andb_prop in H. destruct H as [Ha Hs]. rewrite Ha. apply IH; assumption.
Qed.

(** [int()] accepts every non-empty string of digits. *)
Lemma py_int_digits w : digits1 w -> exists v, py_int w = Ok v.
Proof.
  intros [Hne Hd]. unfold py_int.
  rewrite (lstrip_int_digits w Hd).
  rewrite (lstrip_int_digits (rev w)) by (rewrite forallb_rev; assumption).
  rewrite rev_involutive.
  destruct w as [|a w]; [congruence|]. simpl in Hd.
  apply andb_prop in Hd. destruct Hd as [Ha Hw].
  destruct (digit_facts a Ha) as (_ & _ & -> & -> & _).
  simpl. rewrite Ha. apply digits_value_ok; assumption.
Qed.

Lemma map_result_ok {A B : Type} (f : A -> result B) (l : list A) :
  Forall (fun x => exists y, f x = Ok y) l -> exists ys, map_result f l = Ok ys.
Proof.
  induction 1 as [|x l (y & Hy) _ (ys & IH)]; simpl; eauto.
  rewrite Hy, IH; simpl; eauto.
Qed.

Lemma map_result_Forall2 {A B : Type} (f : A -> result B) (l : list A) :
  forall ys, map_result f l = Ok ys -> Forall2 (fun x y => f x = Ok y) l ys.
Proof.
  induction l as [|x l IH]; simpl; intros ys H.
  - inversion H; constructor.
  - destruct (f x) eqn:E; [|discriminate]. simpl in H.
    destruct (map_result f l) eqn:E'; [|discriminate]. simpl in H.
    inversion H; subst. constructor; auto.
Qed.

Lemma sort_key_ok rec : num_ok (num rec) -> exists k, sort_key rec = Ok k.
Proof.
  intros H. apply map_result_ok.
  eapply Forall_impl; [|exact H]. apply py_int_digits.
Qed.

(** ** Where the records of the list come from *)

Lemma in_skipn {A : Type} (x : A) (l : list A) : forall n,
  In x (skipn n l) -> In x l.
Proof.
  induction l as [|y l IH]; intros [|n]; simpl; auto.
  intros H; right; eauto.
Qed.

Lemma in_firstn {A : Type} (x : A) (l : list A) : forall n,
  In x (firstn n l) -> In x l.
Proof.
  induction l as [|y l IH]; intros [|n]; simpl; auto; try tauto.
  intros [H|H]; [auto|right; eauto].
Qed.

Lemma num_record_of_match t m : num (record_of_match t m) = group t m 1.
Proof. reflexivity. Qed.

Lemma appended_inv pages rec :
  In rec (appended pages) ->
  exists t m,
    In t (skipn (find_recommendations_start_page pages) pages) /\
    In m (finditer header_pattern t) /\
    rec = record_of_match t m /\ audit rec <> [].
Proof.
  unfold appended, page_records. intros H.
  apply in_flat_map in H. destruct H as (t & Ht & H).
  apply in_flat_map in H. destruct H as (m & Hm & H).
  destruct (audit (record_of_match t m)) eqn:E; simpl in H; [contradiction|].
  destruct H as [<-|[]]. exists t, m; splits; auto. rewrite E; discriminate.
Qed.

Lemma appended_num_ok pages rec : In rec (appended pages) -> num_ok (num rec).
Proof.
  intros H. apply appended_inv in H.
  destruct H as (t & m & _ & Hm & -> & _).
  apply finditer_sound in Hm. destruct Hm as (a & Hm).
  rewrite num_record_of_match. eapply header_num_ok; eauto.
Qed.

Lemma remove_duplicates_from_incl l : forall seen rec,
  In rec (remove_duplicates_from seen l) -> In rec l.
Proof.
  induction l as [|x l IH]; simpl; intros seen rec H; auto.
  destruct (mem (num x) seen); [right; eauto|].
  destruct H as [H|H]; [auto|right; eauto].
Qed.

Lemma remove_duplicates_incl l rec : In rec (_remove_duplicates l) -> In rec l.
Proof. apply remove_duplicates_from_incl. Qed.

(** ** The stable sort *)

Section StableSortFacts.
Variables (K A : Type) (lt : K -> K -> bool).
Hypothesis lt_asym : forall a b, lt a b = true -> lt b a = false.
Hypothesis lt_between :
  forall a b c, lt a c = true -> lt a b = true \/ lt b c = true.

Lemma insert_perm (x : K * A) l : Permutation (x :: l) (insert lt x l).
Proof.
  induction l as [|y l IH]; simpl; auto.
  destruct (lt (fst y) (fst x)); auto.
  eapply perm_trans; [apply perm_swap|]. auto.
Qed.

Lemma stable_sort_perm (l : list (K * A)) : Permutation l (stable_sort lt l).
Proof.
  induction l as [|x l IH]; simpl; auto.
  eapply perm_trans; [|apply insert_perm]. auto.
Qed.

Lemma insert_sorted (x : K * A) l :
  StronglySorted (key_le lt) l -> StronglySorted (key_le lt) (insert lt x l).
Proof.
  induction 1 as [|y l Hs IH Hy]; simpl.
  - repeat constructor.
  - destruct (lt (fst y) (fst x)) eqn:E.
    + constructor; auto.
      eapply Permutation_Forall; [apply insert_perm|].
      constructor; auto. unfold key_le. auto.
    + constructor; [constructor; auto|].
      constructor; [exact E|].
      eapply Forall_impl; [|exact Hy]. unfold key_le; intros z Hz.
      destruct (lt (fst z) (fst x)) eqn:Ez; auto.
      destruct (@lt_between _ (fst y) _ Ez) as [H|H]; congruence.
Qed.

Lemma stable_sort_sorted (l : list (K * A)) : StronglySorted (key_le lt) (stable_sort lt l).
Proof.
  induction l as [|x l IH]; simpl; [constructor|].
  apply insert_sorted; assumption.
Qed.

Lemma filter_insert k (x : K * A) l :
  filter (same_key lt k) (insert lt x l)
  = if same_key lt k x then x :: filter (same_key lt k) l
    else filter (same_key lt k) l.
Proof.
  induction l as [|y l IH]; simpl; auto.
  destruct (lt (fst y) (fst x)) eqn:E; simpl; auto.
  rewrite IH.
  destruct (same_key lt k x) eqn:Ex; auto.
  destruct (same_key lt k y) eqn:Ey; auto.
  exfalso. unfold same_key in Ex, Ey.
  apply andb_prop in Ex, Ey. destruct Ex as [Ex1 Ex2], Ey as [Ey1 Ey2].
  apply negb_true_iff in Ex1, Ex2, Ey1, Ey2.
  destruct (@lt_between _ k _ E) as [H|H]; congruence.
Qed.

(** Elements with one key stay in the order they had. *)
Lemma stable_sort_stable k (l : list (K * A)) :
  filter (same_key lt k) (stable_sort lt l) = filter (same_key lt k) l.
Proof.
  induction l as [|x l IH]; simpl; auto.
  rewrite filter_insert, IH; reflexivity.
Qed.
End StableSortFacts.

(** [<] on lists of integers is a strict total order. *)
Lemma list_lt_asym a : forall b, list_lt a b = true -> list_lt b a = false.
Proof.
  induction a as [|x a IH]; intros [|y b]; simpl; auto; try discriminate.
  destruct (x =? y)%Z eqn:E.
  - apply Z.eqb_eq in E; subst. rewrite Z.eqb_refl. apply IH.
  - rewrite Z.eqb_sym, E. intros H. apply Z.ltb_lt in H.
    apply Z.ltb_ge. lia.
Qed.

Lemma list_lt_total a : forall b,
  list_lt a b = false -> list_lt b a = false -> a = b.
Proof.
  induction a as [|x a IH]; intros [|y b]; simpl; auto; try discriminate.
  destruct (x =? y)%Z eqn:E.
  - apply Z.eqb_eq in E; subst. rewrite Z.eqb_refl.
    intros H1 H2; f_equal; auto.
  - rewrite Z.eqb_sym, E. intros H1 H2.
    apply Z.ltb_ge in H1, H2. apply Z.eqb_neq in E. lia.
Qed.

Lemma list_lt_trans a : forall b c,
  list_lt a b = true -> list_lt b c = true -> list_lt a c = true.
Proof.
  induction a as [|x a IH]; intros [|y b] [|z c]; simpl; auto;
    try discriminate.
  destruct (x =? y)%Z eqn:Exy; destruct (y =? z)%Z eqn:Eyz;
    destruct (x =? z)%Z eqn:Exz;
    rewrite ?Z.eqb_eq, ?Z.eqb_neq, ?Z.ltb_lt in *; try lia; eauto.
Qed.

Lemma list_lt_between a b c :
  list_lt a c = true -> list_lt a b = true \/ list_lt b c = true.
Proof.
  intros H.
  destruct (list_lt a b) eqn:E1; auto.
  destruct (list_lt b c) eqn:E2; auto.
  exfalso.
  destruct (list_lt b a) eqn:E3.
  - rewrite (@list_lt_trans _ _ _ E3 H) in E2; discriminate.
  - rewrite (@list_lt_total _ _ E1 E3) in H. congruence.
Qed.



(** ** The sort by number *)

Lemma keyed_inv recs : forall keyed,
  map_result (fun rec => k <- sort_key rec ;; Ok (k, rec)) recs = Ok keyed ->
  map snd keyed = recs /\ Forall keyed_ok keyed.
Proof.
  induction recs as [|x recs IH]; simpl; intros keyed H.
  - inversion H; auto.
  - destruct (sort_key x) eqn:E; [|discriminate]. simpl in H.
    destruct (map_result _ recs) eqn:E'; [|discriminate]. simpl in H.
    inversion H; subst. destruct (IH _ eq_refl) as [<- Hk].
    split; auto.
Qed.

Lemma StronglySorted_map {A B : Type} (R : A -> A -> Prop)
  (R' : B -> B -> Prop) (P : A -> Prop) (f : A -> B) (l : list A) :
  (forall x y, P x -> P y -> R x y -> R' (f x) (f y)) ->
  Forall P l -> StronglySorted R l -> StronglySorted R' (map f l).
Proof.
  intros HR HP Hs. induction Hs as [|x l Hs IH Hx]; simpl; [constructor|].
  inversion HP; subst. constructor; auto.
  apply Forall_map. rewrite Forall_forall in *. auto.
Qed.

Lemma list_lt_irrefl k : list_lt k k = false.
Proof.
  destruct (list_lt k k) eqn:E; auto. rewrite (list_lt_asym _ _ E) in E.
  discriminate.
Qed.

Lemma has_key_same k p :
  keyed_ok p -> has_key k (snd p) = same_key list_lt k p.
Proof.
  unfold keyed_ok, has_key, same_key. intros ->.
  destruct (list_eq_dec Z.eq_dec k (fst p)) as [<-|Hne].
  - rewrite list_lt_irrefl; reflexivity.
  - destruct (list_lt k (fst p)) eqn:E1; auto.
    destruct (list_lt (fst p) k) eqn:E2; auto.
    elim Hne. apply list_lt_total; assumption.
Qed.

Lemma filter_has_key k l :
  Forall keyed_ok l ->
  filter (has_key k) (map snd l) = map snd (filter (same_key list_lt k) l).
Proof.
  induction 1 as [|p l Hp _ IH]; simpl; auto.
  rewrite (has_key_same k Hp), IH.
  destruct (same_key list_lt k p); reflexivity.
Qed.

(** What the sort gives: the same records, ordered by key, records of one
    key in the order they had. *)
Lemma sort_by_num_spec recs out :
  sort_by_num recs = Ok out ->
  Permutation recs out /\ StronglySorted rec_le out /\
  forall k, filter (has_key k) out = filter (has_key k) recs.
Proof.
  unfold sort_by_num. intros H.
  destruct (map_result _ recs) as [keyed|] eqn:E; [|discriminate].
  simpl in H. inversion H; subst; clear H.
  destruct (keyed_inv _ E) as [<- Hk].
  pose proof (stable_sort_perm list_lt keyed) as Hp.
  assert (Hk' : Forall keyed_ok (stable_sort list_lt keyed))
    by (eapply Permutation_Forall; eauto).
  splits.
  - apply Permutation_map; assumption.
  - eapply StronglySorted_map with (P := keyed_ok);
      [|exact Hk'|apply stable_sort_sorted].
    + intros x y Hx Hy Hxy ka kb Ha Hb. unfold keyed_ok, key_le in *.
      congruence.
    + apply list_lt_asym.
    + apply list_lt_between.
  - intros k. rewrite !filter_has_key by assumption.
    rewrite stable_sort_stable; auto using list_lt_asym, list_lt_between.
Qed.

Lemma sort_by_num_total recs :
  Forall (fun rec => num_ok (num rec)) recs ->
  exists out, sort_by_num recs = Ok out.
Proof.
  intros H. unfold sort_by_num.
  destruct (@map_result_ok _ _ (fun rec => k <- sort_key rec ;; Ok (k, rec)) recs)
    as (keyed & ->); simpl; eauto.
  eapply Forall_impl; [|exact H]. simpl; intros rec Hr.
  destruct (@sort_key_ok rec Hr) as (k & ->); simpl; eauto.
Qed.

(** The sort of the extractor never fails. *)
Lemma extract_recommendations_total pages :
  exists recs, extract_recommendations pages = Ok recs.
Proof.
  apply sort_by_num_total. apply Forall_forall. intros rec H.
  apply remove_duplicates_incl in H. eapply appended_num_ok; eauto.
Qed.

(** Every record of the result was appended by a header match. *)
Lemma extract_recommendations_incl pages recs rec :
  extract_recommendations pages = Ok recs -> In rec recs ->
  In rec (appended pages).
Proof.
  intros H Hin. apply sort_by_num_spec in H. destruct H as (Hp & _).
  apply remove_duplicates_incl.
  eapply Permutation_in; [apply Permutation_sym; exact Hp|assumption].
Qed.

(** ** Labels in a content window *)

Lemma prefix_of_app w s : prefix_of w (w ++ s) = true.
Proof.
  induction w as [|a w IH]; simpl; auto. rewrite Ascii.eqb_refl; assumption.
Qed.

Lemma occurs_skipn w s : forall k, prefix_of w (skipn k s) = true -> occurs w s = true.
Proof.
  induction s as [|a s IH]; intros k H.
  - rewrite skipn_nil in H. simpl. rewrite H; reflexivity.
  - destruct k as [|k]; simpl in *.
    + rewrite H; reflexivity.
    + rewrite (IH k H). apply orb_true_r.
Qed.

Lemma lang_lit w : forall w', lang (lit_of chr w) w' -> w' = w.
Proof.
  induction w as [|a w IH]; intros w' H; simpl in H.
  - assumption.
  - destruct w as [|b w].
    + destruct H as (x & -> & Hx). apply Ascii.eqb_eq in Hx; subst; reflexivity.
    + destruct H as (w1 & w2 & -> & (x & -> & Hx) & H2).
      apply Ascii.eqb_eq in Hx; subst. apply IH in H2; subst; reflexivity.
Qed.

(** A pattern that starts with a literal is found only in a text that holds
    the literal. *)
Lemma search_literal label r t m :
  search (Seq (lit label) r) t = Some m -> occurs (str label) t = true.
Proof.
  unfold search. intros H. apply search_from_sound in H.
  destruct H as (k & _ & H). apply match_at_sound in H.
  destruct H as (_ & s' & H). apply Match_seq_inv in H.
  destruct H as (s1 & i1 & c1 & H & _). apply Match_reads in H.
  destruct H as (w & new & E & _ & L & _). apply lang_lit in L; subst w.
  apply occurs_skipn with (k := k). rewrite E. apply prefix_of_app.
Qed.

Lemma field_of_absent label ends content :
  occurs (str label) content = false ->
  field_of (field_pattern label ends) content = [].
Proof.
  intros H. unfold field_of.
  destruct (search (field_pattern label ends) content) eqn:E; auto.
  apply search_literal in E. congruence.
Qed.

(** ** Field lengths *)

Lemma details_within_limits n t s content :
  within_limits (_extract_recommendation_details n t s content).
Proof.
  unfold within_limits, _extract_recommendation_details.
  cbn [description rationale impact audit remediation default_value references].
  splits; apply firstn_le_length.
Qed.

(** ** Results on the extractor *)


(** C4: no field of a record of the final list is longer than its limit:
    description 1500, rationale 1000, impact 1000, audit 2500,
    remediation 1500, default value 500, references 800 characters. *)
Theorem fields_within_limits (pages : list text) :
  exists recs, extract_recommendations pages = Ok recs /\
               Forall within_limits recs.
Proof.
  destruct (extract_recommendations_total pages) as (recs & H).
  exists recs; split; [assumption|]. apply Forall_forall. intros rec Hin.
  eapply extract_recommendations_incl in Hin; eauto.
  apply appended_inv in Hin. destruct Hin as (t & m & _ & _ & -> & _).
  apply details_within_limits.
Qed.

(** C2: every record of the final list comes from a header match and has a
    non-empty audit field; a header match whose record has an empty audit
    field is not in the list, and the audit field is empty whenever the
    content window does not hold the label "Audit:". *)
Theorem audit_required (pages : list text) :
  exists recs,
    extract_recommendations pages = Ok recs /\
    Forall (fun rec =>
              audit rec <> [] /\
              exists t m, In t pages /\ In m (finditer header_pattern t) /\
                          rec = record_of_match t m) recs /\
    (forall t m, audit (record_of_match t m) = [] ->
                 ~ In (record_of_match t m) recs) /\
    (forall num title status content,
       occurs (str "Audit:") content = false ->
       audit (_extract_recommendation_details num title status content) = []).
Proof.
  destruct (extract_recommendations_total pages) as (recs & H).
  assert (Hall : Forall (fun rec =>
              audit rec <> [] /\
              exists t m, In t pages /\ In m (finditer header_pattern t) /\
                          rec = record_of_match t m) recs).
  { apply Forall_forall. intros rec Hin.
    eapply extract_recommendations_incl in Hin; eauto.
    apply appended_inv in Hin. destruct Hin as (t & m & Ht & Hm & -> & Ha).
    split; [assumption|]. exists t, m; splits; auto.
    eapply in_skipn; eauto. }
  exists recs; splits; auto.
  - intros t m Hempty Hin. rewrite Forall_forall in Hall.
    destruct (Hall _ Hin) as [Hne _]. contradiction.
  - intros n ti st content Hno.
    unfold _extract_recommendation_details. cbn [audit].
    unfold audit_pattern. rewrite field_of_absent by assumption. reflexivity.
Qed.

(** ** Duplicates and order *)

Lemma text_eqb_eq a b : text_eqb a b = true <-> a = b.
Proof.
  unfold text_eqb. destruct (text_eq_dec a b); split; congruence.
Qed.

Lemma mem_In x l : mem x l = true <-> In x l.
Proof.
  induction l as [|y l IH]; simpl; [split; [discriminate|tauto]|].
  rewrite orb_true_iff, text_eqb_eq, IH. split; intros [H|H]; auto.
Qed.

Lemma mem_not_In x l : mem x l = false <-> ~ In x l.
Proof.
  rewrite <- mem_In. destruct (mem x l); split; congruence.
Qed.

(** What is kept: one record per number, the first of the list with it. *)
Lemma remove_duplicates_from_spec l : forall seen,
  NoDup (map num (remove_duplicates_from seen l)) /\
  (forall rec, In rec (remove_duplicates_from seen l) ->
               ~ In (num rec) seen /\
               exists l1 l2, l = l1 ++ rec :: l2 /\
                             ~ In (num rec) (map num l1)) /\
  (forall rec, In rec l ->
               In (num rec) seen \/
               In (num rec) (map num (remove_duplicates_from seen l))).
Proof.
  induction l as [|x l IH]; intros seen; simpl.
  - splits; [constructor|contradiction|contradiction].
  - destruct (mem (num x) seen) eqn:E.
    + apply mem_In in E. destruct (IH seen) as (Hnd & Hfirst & Hall).
      splits; auto.
      * intros rec Hin. destruct (Hfirst rec Hin) as (Hs & l1 & l2 & -> & Hl1).
        split; auto. exists (x :: l1), l2; split; auto.
        simpl. intros [Hx|Hx]; [congruence|auto].
      * intros rec [<-|Hin]; auto.
    + apply mem_not_In in E.
      destruct (IH (num x :: seen)) as (Hnd & Hfirst & Hall).
      splits.
      * simpl. constructor; auto. intros Hx. apply in_map_iff in Hx.
        destruct Hx as (rec & Hn & Hin).
        destruct (Hfirst rec Hin) as (Hs & _). simpl in Hs. apply Hs; left; congruence.
      * intros rec [<-|Hin].
        -- split; auto. exists [], l; auto.
        -- destruct (Hfirst rec Hin) as (Hs & l1 & l2 & -> & Hl1). simpl in Hs.
           split; [tauto|]. exists (x :: l1), l2; split; auto.
           simpl. intros [Hx|Hx]; [tauto|auto].
      * intros rec [<-|Hin]; simpl; auto.
        destruct (Hall rec Hin) as [[H|H]|H]; auto.
Qed.

Lemma StronglySorted_app_r {A : Type} (R : A -> A -> Prop) (l1 l2 : list A) :
  StronglySorted R (l1 ++ l2) -> StronglySorted R l2.
Proof.
  induction l1 as [|x l1 IH]; simpl; auto.
  intros H; inversion H; auto.
Qed.

Lemma sorted_precedes {A : Type} (R : A -> A -> Prop) (l : list A) a b :
  StronglySorted R l -> precedes l a b -> R a b.
Proof.
  intros Hs (l1 & l2 & l3 & ->). apply StronglySorted_app_r in Hs.
  inversion Hs as [|x l Hs' Hall]; subst.
  rewrite Forall_forall in Hall. apply Hall.
  apply in_or_app; right; left; reflexivity.
Qed.

Lemma precedes_total {A : Type} (l : list A) a b :
  In a l -> In b l -> a <> b -> precedes l a b \/ precedes l b a.
Proof.
  intros Ha Hb Hne. apply in_split in Ha. destruct Ha as (l1 & l2 & ->).
  apply in_app_or in Hb. destruct Hb as [Hb|[Hb|Hb]]; [|congruence|].
  - apply in_split in Hb. destruct Hb as (m1 & m2 & ->).
    right. exists m1, m2, l2. rewrite <- app_assoc; reflexivity.
  - apply in_split in Hb. destruct Hb as (m1 & m2 & ->).
    left. exists l1, m1, m2; reflexivity.
Qed.

Lemma key_lt_irrefl a : ~ key_lt a a.
Proof.
  intros (ka & kb & Ha & Hb & H). rewrite Ha in Hb. inversion Hb; subst.
  rewrite list_lt_irrefl in H; discriminate.
Qed.

(** C3, as stated, fails: the records 1.1 and 1.01 are both kept, 1.1 stands
    before 1.01, and neither key is below the other. *)
Lemma ordered_iff_key_lt_fails : ~ ordered_iff_key_lt [page_tie].
Proof.
  intros H.
  destruct (extract_recommendations [page_tie]) as [recs|] eqn:E;
    [|vm_compute in E; discriminate].
  specialize (H recs E).
  vm_compute in E. inversion E as [E']; clear E.
  match type of E' with [?a; ?b] = _ =>
    assert (Hp : precedes recs a b) by (exists [], [], []; subst; reflexivity);
    assert (Ha : In a recs) by (subst; simpl; auto);
    assert (Hb : In b recs) by (subst; simpl; auto);
    apply (H a b Ha Hb) in Hp
  end.
  destruct Hp as (ka & kb & Hka & Hkb & Hlt).
  vm_compute in Hka, Hkb. inversion Hka; inversion Hkb; subst ka kb.
  vm_compute in Hlt. discriminate.
Qed.

(** C3, amended: the final list holds one record per number, the first one
    appended with it; a record never stands before a record with a lower
    key, a record with a lower key always stands before one with a higher
    key, and records with one key keep the order in which they were kept. *)
Theorem sorted_after_duplicates_removed (pages : list text) :
  exists recs,
    extract_recommendations pages = Ok recs /\
    NoDup (map num recs) /\
    (forall rec, In rec recs ->
       exists l1 l2, appended pages = l1 ++ rec :: l2 /\
                     ~ In (num rec) (map num l1)) /\
    (forall rec, In rec (appended pages) -> In (num rec) (map num recs)) /\
    (forall a b, precedes recs a b -> ~ key_lt b a) /\
    (forall a b, In a recs -> In b recs -> key_lt a b -> precedes recs a b) /\
    (forall k, filter (has_key k) recs
               = filter (has_key k) (_remove_duplicates (appended pages))).
Proof.
  destruct (extract_recommendations_total pages) as (recs & H).
  exists recs; split; [assumption|].
  unfold extract_recommendations in H. apply sort_by_num_spec in H.
  destruct H as (Hperm & Hsorted & Hstable).
  destruct (remove_duplicates_from_spec (appended pages) [])
    as (Hnd & Hfirst & Hall).
  fold (_remove_duplicates (appended pages)) in Hnd, Hfirst, Hall.
  assert (Hback : forall a b, precedes recs a b -> ~ key_lt b a).
  { intros a b Hp (kb & ka & Hkb & Hka & Hlt).
    pose proof (sorted_precedes Hsorted Hp ka kb Hka Hkb). congruence. }
  splits; auto.
  - eapply Permutation_NoDup; [apply Permutation_map; exact Hperm|assumption].
  - intros rec Hin. apply Hfirst.
    eapply Permutation_in; [apply Permutation_sym; exact Hperm|assumption].
  - intros rec Hin. destruct (Hall rec Hin) as [[]|Hn].
    eapply Permutation_in; [apply Permutation_map; exact Hperm|assumption].
  - intros a b Ha Hb Hlt.
    destruct (@precedes_total _ recs a b Ha Hb) as [Hp|Hp]; auto.
    + intros ->. exact (key_lt_irrefl Hlt).
    + elim (Hback _ _ Hp Hlt).
Qed.

(** ** Sections *)

Lemma lookup_add k rec d k' :
  lookup k' (add_to_section k rec d)
  = if text_eqb k' k then Some (section_recs d k ++ [rec]) else lookup k' d.
Proof.
  induction d as [|[k0 l0] d IH]; unfold section_recs in *; simpl.
  - text_cases.
  - destruct (text_eqb k k0) eqn:E; simpl.
    + text_cases.
    + rewrite IH. text_cases.
Qed.

Lemma keys_add k rec d :
  map fst (add_to_section k rec d)
  = if mem k (map fst d) then map fst d else map fst d ++ [k].
Proof.
  induction d as [|[k0 l0] d IH]; simpl; auto.
  destruct (text_eqb k k0) eqn:E; simpl; auto.
  rewrite IH. destruct (mem k (map fst d)); reflexivity.
Qed.

Lemma lookup_In k l d : lookup k d = Some l -> In (k, l) d.
Proof.
  induction d as [|[k0 l0] d IH]; simpl; [discriminate|].
  destruct (text_eqb k k0) eqn:E.
  - apply text_eqb_eq in E; subst. intros H; inversion H; auto.
  - auto.
Qed.

Lemma In_lookup k l d : NoDup (map fst d) -> In (k, l) d -> lookup k d = Some l.
Proof.
  induction d as [|[k0 l0] d IH]; simpl; [contradiction|].
  intros Hnd [H|H]; inversion Hnd; subst.
  - inversion H; subst. text_cases.
  - destruct (text_eqb k k0) eqn:E; auto.
    apply text_eqb_eq in E; subst.
    elim H2. apply in_map_iff. exists (k0, l); auto.
Qed.

(** The state of the dictionary after the loop over [recs]. *)
Lemma organize_fold recs : forall d,
  let d' := fold_left (fun d rec => add_to_section (main_section rec) rec d)
                      recs d in
  (NoDup (map fst d) -> NoDup (map fst d')) /\
  ((forall k l, lookup k d = Some l -> l <> []) ->
   forall k l, lookup k d' = Some l -> l <> []) /\
  forall k, section_recs d' k = section_recs d k ++ filter (in_section k) recs.
Proof.
  induction recs as [|rec recs IH]; intros d; simpl.
  - splits; auto. intros k; rewrite app_nil_r; reflexivity.
  - destruct (IH (add_to_section (main_section rec) rec d)) as (Hnd & Hne & Hs).
    splits.
    + intros H. apply Hnd. rewrite keys_add.
      destruct (mem (main_section rec) (map fst d)) eqn:E; auto.
      apply mem_not_In in E.
      apply NoDup_rev in H. rewrite <- (rev_involutive (_ ++ _)), rev_app_distr.
      apply NoDup_rev. simpl. constructor; auto.
      rewrite <- in_rev; assumption.
    + intros H. apply Hne. intros k l. rewrite lookup_add.
      destruct (text_eqb k (main_section rec)); eauto.
      intros E; inversion E. destruct (section_recs d (main_section rec)); discriminate.
    + intros k. rewrite Hs.
      assert (E : section_recs (add_to_section (main_section rec) rec d) k
                  = section_recs d k
                    ++ (if in_section k rec then [rec] else [])).
      { unfold section_recs at 1. rewrite lookup_add. unfold in_section.
        destruct (text_eq_dec k (main_section rec)) as [->|Hne'].
        - unfold text_eqb. destruct (text_eq_dec _ _); [|congruence].
          reflexivity.
        - unfold text_eqb.
          destruct (text_eq_dec k (main_section rec)); [congruence|].
          destruct (text_eq_dec (main_section rec) k); [congruence|].
          rewrite app_nil_r; reflexivity. }
      rewrite E, <- app_assoc. destruct (in_section k rec); reflexivity.
Qed.

(** The groups are the records of each leading component, in the order of
    the list. *)
Lemma organize_by_section_spec recs :
  let d := organize_by_section recs in
  NoDup (map fst d) /\
  (forall k l, In (k, l) d -> l <> [] /\ l = filter (in_section k) recs) /\
  (forall rec, In rec recs ->
     In (main_section rec, filter (in_section (main_section rec)) recs) d).
Proof.
  unfold organize_by_section.
  destruct (organize_fold recs []) as (Hnd & Hne & Hs).
  specialize (Hnd (NoDup_nil _)).
  assert (Hne' : forall k l, lookup k [] = Some l -> l <> [])
    by (simpl; discriminate).
  specialize (Hne Hne'). clear Hne'. simpl in *. splits; auto.
  - intros k l Hin. apply In_lookup in Hin; auto.
    split; [eapply Hne; eauto|].
    specialize (Hs k). unfold section_recs in Hs at 1. rewrite Hin in Hs.
    assumption.
  - intros rec Hin. apply lookup_In.
    specialize (Hs (main_section rec)). unfold section_recs in Hs at 1.
    simpl in Hs.
    destruct (lookup (main_section rec) _) as [l|] eqn:E; [congruence|].
    assert (Hf : In rec (filter (in_section (main_section rec)) recs)).
    { apply filter_In; split; auto. unfold in_section. apply text_eqb_eq; auto. }
    rewrite <- Hs in Hf. contradiction.
Qed.

(** [split] cuts at the first separator: the head holds no separator and is
    the whole string or what stands before the first separator. *)
Lemma split_head c s :
  exists w l, split c s = w :: l /\ ~ In c w /\
              ((l = [] /\ s = w) \/ exists rest, s = w ++ c :: rest).
Proof.
  induction s as [|a s (w & l & E & Hw & Hs)]; simpl.
  - exists [], []; splits; auto.
  - destruct (Ascii.eqb a c) eqn:Ea.
    + apply Ascii.eqb_eq in Ea; subst.
      exists [], (split c s); splits; auto. right; exists s; reflexivity.
    + apply Ascii.eqb_neq in Ea. rewrite E.
      exists (a :: w), l; splits; auto.
      * simpl; intros [H|H]; auto.
      * destruct Hs as [[-> ->]|(rest & ->)]; auto.
        right; exists rest; reflexivity.
Qed.

Lemma main_section_spec rec :
  ~ In "."%char (main_section rec) /\
  (num rec = main_section rec \/
   exists rest, num rec = main_section rec ++ "."%char :: rest).
Proof.
  unfold main_section.
  destruct (split_head "." (num rec)) as (w & l & -> & Hw & Hs).
  split; auto. destruct Hs as [[_ H]|H]; auto.
Qed.

Lemma main_section_digits rec : num_ok (num rec) -> digits1 (main_section rec).
Proof.
  unfold num_ok, main_section.
  destruct (split_head "." (num rec)) as (w & l & -> & _).
  intros H; inversion H; assumption.
Qed.

Lemma lang_num_dotted w : lang num_pattern w -> In "."%char w.
Proof.
  intros (d & w2 & -> & _ & (x & w3 & -> & Hx & _)).
  destruct Hx as (x1 & x2 & -> & (a & -> & Ha) & _).
  apply Ascii.eqb_eq in Ha; subst a.
  apply in_or_app; right. simpl; auto.
Qed.

Lemma appended_num_dotted pages rec :
  In rec (appended pages) -> In "."%char (num rec).
Proof.
  intros H. apply appended_inv in H.
  destruct H as (t & m & _ & Hm & -> & _).
  apply finditer_sound in Hm. destruct Hm as (a & Hm).
  rewrite num_record_of_match. apply lang_num_dotted.
  eapply group_of_match; [exact Hm|].
  vm_compute. intuition discriminate.
Qed.

(** C5: the groups of [organize_by_section] split the final list: the keys
    are distinct, the group of a key holds the records whose number starts
    with it, in the order of the list, every record is in the group of the
    digits before its first dot and in no other group. *)
Theorem grouping_partitions (pages : list text) :
  exists recs,
    extract_recommendations pages = Ok recs /\
    let d := organize_by_section recs in
    NoDup (map fst d) /\
    (forall k l, In (k, l) d -> l <> [] /\ l = filter (in_section k) recs) /\
    Forall (fun rec =>
              (exists l, In (main_section rec, l) d /\ In rec l) /\
              (forall k l, In (k, l) d -> In rec l -> k = main_section rec) /\
              digits1 (main_section rec) /\
              exists rest, num rec = main_section rec ++ "."%char :: rest)
           recs.
Proof.
  destruct (extract_recommendations_total pages) as (recs & H).
  exists recs; split; [assumption|].
  destruct (organize_by_section_spec recs) as (Hnd & Hgroups & Hin).
  simpl. splits; auto.
  apply Forall_forall. intros rec Hrec. splits.
  - eexists; split; [apply Hin; assumption|].
    apply filter_In; split; auto. apply text_eqb_eq; reflexivity.
  - intros k l Hkl Hl. destruct (Hgroups k l Hkl) as (_ & ->).
    apply filter_In in Hl. destruct Hl as (_ & Hl).
    apply text_eqb_eq in Hl; auto.
  - apply main_section_digits. eapply appended_num_ok.
    eapply extract_recommendations_incl; eauto.
  - destruct (main_section_spec rec) as (Hno & [E|E]); auto.
    elim Hno. rewrite <- E. eapply appended_num_dotted.
    eapply extract_recommendations_incl; eauto.
Qed.

(** ** The report builder *)

Lemma sorted_keys_perm d keys :
  sorted_keys d = Ok keys -> Permutation (map fst d) keys.
Proof.
  unfold sorted_keys. intros H.
  destruct (map_result _ (map fst d)) as [keyed|] eqn:E; [|discriminate].
  simpl in H. inversion H; subst; clear H.
  assert (Hk : map snd keyed = map fst d).
  { revert keyed E. induction (map fst d) as [|k l IH]; simpl; intros keyed E.
    - inversion E; reflexivity.
    - destruct (py_int k); [|discriminate]. simpl in E.
      destruct (map_result _ l); [|discriminate]. simpl in E.
      inversion E; subst. simpl. f_equal; auto. }
  rewrite <- Hk. apply Permutation_map. apply stable_sort_perm.
Qed.

Lemma sorted_keys_total d :
  Forall digits1 (map fst d) -> exists keys, sorted_keys d = Ok keys.
Proof.
  intros H. unfold sorted_keys.
  destruct (@map_result_ok _ _ (fun k => n <- py_int k ;; Ok (n, k)) (map fst d))
    as (keyed & ->); simpl; eauto.
  eapply Forall_impl; [|exact H]. simpl; intros k Hk.
  destruct (py_int_digits Hk) as (v & ->); simpl; eauto.
Qed.


Lemma length_split c s : length (split c s) = S (count_occ ascii_eq_dec s c).
Proof.
  induction s as [|a s IH]; simpl; auto.
  destruct (Ascii.eqb a c) eqn:E.
  - apply Ascii.eqb_eq in E; subst.
    destruct (ascii_eq_dec c c); [|congruence]. simpl; auto.
  - apply Ascii.eqb_neq in E.
    destruct (ascii_eq_dec a c); [congruence|].
    destruct (split c s); simpl in *; [discriminate|assumption].
Qed.

(** The loop over the recommendations appends one row per record and
    leaves the rows and heights that were there. *)
Lemma section_fold_rows recs : forall ws row,
  rows (fst (fold_left section_step recs (ws, row)))
  = rows ws ++ map data_row recs /\
  sheet_name (fst (fold_left section_step recs (ws, row))) = sheet_name ws.
Proof.
  induction recs as [|rec recs IH]; intros ws row; simpl.
  - rewrite app_nil_r; auto.
  - destruct (IH (_add_recommendation_row ws row rec) (row + 1)) as (-> & ->).
    simpl. rewrite <- app_assoc. auto.
Qed.

Lemma section_fold_heights_before recs : forall ws row r,
  r < row ->
  height_of (heights (fst (fold_left section_step recs (ws, row)))) r
  = height_of (heights ws) r.
Proof.
  induction recs as [|rec recs IH]; intros ws row r Hr; simpl; auto.
  rewrite IH by lia. simpl.
  destruct (row =? r) eqn:E; [apply Nat.eqb_eq in E; lia|reflexivity].
Qed.

Lemma add_row_height ws row rec :
  height_of (heights (_add_recommendation_row ws row rec)) row
  = Some (height_spec rec).
Proof.
  simpl. rewrite Nat.eqb_refl. unfold height_spec, max3, line_count.
  rewrite !length_split. reflexivity.
Qed.

Lemma section_fold_height l1 rec l2 : forall ws row,
  height_of (heights (fst (fold_left section_step (l1 ++ rec :: l2)
                                     (ws, row))))
            (row + length l1)
  = Some (height_spec rec).
Proof.
  induction l1 as [|x l1 IH]; intros ws row.
  - simpl app. cbn [fold_left section_step length].
    rewrite Nat.add_0_r, section_fold_heights_before by lia.
    apply add_row_height.
  - simpl app. cbn [fold_left section_step length].
    replace (row + S (length l1)) with (row + 1 + length l1) by lia.
    apply IH.
Qed.

Lemma create_section_sheet_name benchmark_title section_num name recs :
  sheet_name (create_section_sheet benchmark_title section_num name recs)
  = sheet_name_of section_num name.
Proof.
  unfold create_section_sheet.
  match goal with
  | |- sheet_name (fst (fold_left section_step recs (?ws, 3))) = _ =>
      destruct (section_fold_rows recs ws 3) as (_ & ->)
  end.
  reflexivity.
Qed.

Lemma index_fold_rows d keys : forall ws row,
  rows (fst (fold_left (index_step d) keys (ws, row)))
  = rows ws ++ map (index_row d) keys /\
  sheet_name (fst (fold_left (index_step d) keys (ws, row))) = sheet_name ws.
Proof.
  induction keys as [|k keys IH]; intros ws row; simpl.
  - rewrite app_nil_r; auto.
  - match goal with
    | |- context [fold_left _ keys (?ws', ?row')] =>
        destruct (IH ws' row') as (-> & ->)
    end.
    simpl. rewrite <- app_assoc. auto.
Qed.

(** C8: the row of a record in a section sheet holds the cells of the
    record and gets the height min(max(lines * 14, 80), 350), where lines
    is the largest number of lines (line breaks plus one) among the
    composed description, the audit field and the remediation field; the
    height lies between 80 and 350. *)
Theorem row_height_from_lines
  (benchmark_title section_num name : text)
  (l1 : list recommendation) (rec : recommendation)
  (l2 : list recommendation) :
  let s := create_section_sheet benchmark_title section_num name
                                (l1 ++ rec :: l2) in
  nth_error (rows s) (length l1 + 2) = Some (data_row rec) /\
  height_of (heights s) (length l1 + 3) = Some (height_spec rec) /\
  (80 <= height_spec rec <= 350)%Z.
Proof.
  intros s. subst s. unfold create_section_sheet. splits.
  - match goal with
    | |- nth_error (rows (fst (fold_left section_step ?l (?ws, 3)))) _ = _ =>
        destruct (section_fold_rows l ws 3) as (-> & _)
    end.
    cbn [rows append_row set_height new_sheet app].
    replace (length l1 + 2) with (S (S (length l1))) by lia.
    cbn [nth_error].
    rewrite map_app, nth_error_app2; rewrite length_map; auto.
    rewrite Nat.sub_diag. reflexivity.
  - replace (length l1 + 3) with (3 + length l1) by lia.
    apply section_fold_height.
  - unfold height_spec. lia.
  - unfold height_spec. lia.
Qed.



(** ** The whole run *)

Lemma firstn_min_length {A : Type} n (l : list A) :
  firstn (Nat.min n (length l)) l = firstn n l.
Proof.
  destruct (Nat.le_ge_cases n (length l)) as [H|H].
  - rewrite Nat.min_l by assumption; reflexivity.
  - rewrite Nat.min_r by assumption.
    rewrite firstn_all, firstn_all2 by assumption; reflexivity.
Qed.

Lemma metadata_fold_title l : forall tv,
  (forall t, In t l -> search title_pattern t = None) ->
  fst (fold_left metadata_step l tv) = fst tv.
Proof.
  induction l as [|t l IH]; intros tv H; simpl; auto.
  rewrite IH by (intros; apply H; simpl; auto).
  unfold metadata_step. rewrite (H t) by (simpl; auto).
  destruct (search version_pattern t); reflexivity.
Qed.

Lemma metadata_fold_version l : forall tv,
  (forall t, In t l -> search version_pattern t = None) ->
  snd (fold_left metadata_step l tv) = snd tv.
Proof.
  induction l as [|t l IH]; intros tv H; simpl; auto.
  rewrite IH by (intros; apply H; simpl; auto).
  unfold metadata_step. rewrite (H t) by (simpl; auto).
  destruct (search title_pattern t); reflexivity.
Qed.





(** The keys of the sections of the final list are strings of digits. *)
Lemma section_keys_digits pages recs :
  extract_recommendations pages = Ok recs ->
  Forall digits1 (map fst (organize_by_section recs)).
Proof.
  intros H. apply Forall_forall. intros k Hk.
  apply in_map_iff in Hk. destruct Hk as ([k' l] & <- & Hin). simpl.
  destruct (organize_by_section_spec recs) as (_ & Hgroups & _).
  destruct (Hgroups k' l Hin) as (Hne & Hl).
  destruct l as [|rec l]; [congruence|].
  assert (Hrec : In rec (filter (in_section k') recs))
    by (rewrite <- Hl; simpl; auto).
  apply filter_In in Hrec. destruct Hrec as (Hrec & Hk).
  apply text_eqb_eq in Hk. subst k'.
  apply main_section_digits. eapply appended_num_ok.
  eapply extract_recommendations_incl; eauto.
Qed.


(** ** The example of the specification *)

(** C1, as stated, fails: on the page that holds the lines and nothing
    after them the remediation segment has no end, and the field is empty. *)
Lemma example_expected_fails : ~ example_expected example_page.
Proof.
  intros (rec & H & _ & _ & _ & _ & _ & _ & Hrem & _).
  vm_compute in H. inversion H; subst rec.
  vm_compute in Hrem. discriminate.
Qed.

(** C1, amended: when a line with the label "References:" follows the
    remediation line, the page gives exactly one record, with the fields of
    the example, level "Level 1" and an empty impact, in section 1; without
    such a line the one record has an empty remediation field. *)
Theorem example_with_closed_remediation :
  extract_recommendations [example_page_closed]
  = Ok [example_record (str "Edit /etc/modprobe.d/cramfs.conf.")] /\
  organize_by_section [example_record (str "Edit /etc/modprobe.d/cramfs.conf.")]
  = [(str "1", [example_record (str "Edit /etc/modprobe.d/cramfs.conf.")])] /\
  example_expected example_page_closed /\
  extract_recommendations [example_page] = Ok [example_record []].
Proof.
  assert (H : extract_recommendations [example_page_closed]
              = Ok [example_record (str "Edit /etc/modprobe.d/cramfs.conf.")])
    by (vm_compute; reflexivity).
  split; [exact H|]. split; [vm_compute; reflexivity|].
  split; [|vm_compute; reflexivity].
  eexists; split; [exact H|]. splits; vm_compute; reflexivity.
Qed.

(** ** The start page *)

(** C7: the pattern of [find_recommendations_start_page] asks for a line
    break before "1.1", so a page whose first line opens the
    recommendations is passed over: the specification gives page 0, the
    code falls back to page 15 and the record of the page is lost, though
    the header pattern, which also takes the start of the text, finds it. *)
Theorem start_page_misses_first_line :
  start_page_spec [first_line_page] = 0 /\
  find_recommendations_start_page [first_line_page] = 15 /\
  extract_recommendations [first_line_page] = Ok [] /\
  length (page_records first_line_page) = 1.
Proof. vm_compute. auto. Qed.

(** ** The bounds of the loops are wide enough *)

Section Bounds.
Variable A : Type.

(** A run asks its continuation only about the matches of the pattern. *)
Lemma rounds_ext (r : regex) (g : bool)
  (Hr : forall s i c (k1 k2 : cont A),
      (forall s' i' c', Match r s i c s' i' c' ->
                        k1 s' i' c' = k2 s' i' c') ->
      run r s i c k1 = run r s i c k2) :
  forall n s i c (k1 k2 : cont A),
    (forall s' i' c', Match (Rep g r) s i c s' i' c' ->
                      k1 s' i' c' = k2 s' i' c') ->
    rounds (run r) g k1 n s i c = rounds (run r) g k2 n s i c.
Proof.
  induction n as [|n IH]; intros s i c k1 k2 H; simpl.
  - apply H; auto.
  - rewrite (H s i c) by auto.
    rewrite (Hr s i c _
               (fun s' i' c' =>
                  if i <? i' then rounds (run r) g k2 n s' i' c' else None)).
    + reflexivity.
    + intros s1 i1 c1 Hm. destruct (i <? i1) eqn:E; auto.
      apply Nat.ltb_lt in E. apply IH. intros s2 i2 c2 Hm2.
      apply H. eauto.
Qed.

Lemma run_ext (r : regex) : forall s i c (k1 k2 : cont A),
  (forall s' i' c', Match r s i c s' i' c' -> k1 s' i' c' = k2 s' i' c') ->
  run r s i c k1 = run r s i c k2.
Proof.
  induction r as [|p| |r1 IH1 r2 IH2|r1 IH1 r2 IH2|g r1 IH1|n r1 IH1];
    intros s i c k1 k2 H; simpl.
  - auto.
  - destruct s as [|a s]; auto. destruct (p a) eqn:E; auto.
  - destruct (i =? 0) eqn:E; auto. apply Nat.eqb_eq in E; subst; auto.
  - apply IH1. intros s1 i1 c1 Hm. apply IH2. eauto.
  - rewrite (IH1 s i c k1 k2) by auto. rewrite (IH2 s i c k1 k2) by auto.
    reflexivity.
  - apply rounds_ext; auto.
  - apply IH1. intros s1 i1 c1 Hm. auto.
Qed.

(** A round that moves forward leaves a shorter text. *)
Lemma Match_shorter r s i c s' i' c' :
  Match r s i c s' i' c' -> i < i' -> length s' < length s.
Proof.
  intros H Hlt. apply Match_reads in H.
  destruct H as (w & new & -> & -> & _). rewrite length_app. lia.
Qed.

(** As many rounds as the text has characters are as good as any larger
    number of rounds. *)
Lemma rounds_enough (r : regex) (g : bool) (k : cont A) :
  forall n m s i c,
    length s <= n -> length s <= m ->
    rounds (run r) g k n s i c = rounds (run r) g k m s i c.
Proof.
  assert (Hnil : forall n i c, rounds (run r) g k n [] i c = k [] i c).
  { intros [|n] i c; simpl; auto.
    assert (Hnone : run r [] i c
              (fun s' i' c' =>
                 if i <? i' then rounds (run r) g k n s' i' c' else None)
              = None).
    { destruct (run r [] i c _) eqn:E; auto.
      apply run_sound in E. destruct E as (s' & i' & c' & Hm & Hk).
      destruct (i <? i') eqn:Hlt; [|discriminate].
      apply Nat.ltb_lt in Hlt. apply Match_shorter in Hm; auto.
      simpl in Hm; lia. }
    rewrite Hnone. destruct g; auto. destruct (k [] i c); auto. }
  induction n as [|n IH]; intros m s i c Hn Hm.
  - destruct s; [|simpl in Hn; lia]. rewrite !Hnil; reflexivity.
  - destruct m as [|m].
    + destruct s; [|simpl in Hm; lia]. rewrite !Hnil; reflexivity.
    + simpl.
      rewrite (@run_ext r s i c _
                 (fun s' i' c' =>
                    if i <? i' then rounds (run r) g k m s' i' c' else None)).
      * reflexivity.
      * intros s1 i1 c1 Hr. destruct (i <? i1) eqn:E; auto.
        apply Nat.ltb_lt in E. apply Match_shorter in Hr; auto.
        apply IH; lia.
Qed.

Lemma run_rep_rounds (r : regex) (g : bool) (k : cont A) n s i c :
  length s <= n -> run (Rep g r) s i c k = rounds (run r) g k n s i c.
Proof. intros H. simpl. apply rounds_enough; auto. Qed.
End Bounds.

Lemma search_from_bounds r s i m :
  search_from r s i = Some m ->
  i <= m_start m /\ m_start m <= m_end m /\ m_end m <= i + length s.
Proof.
  intros H. apply search_from_sound in H. destruct H as (k & Hk & H).
  apply match_at_sound in H. destruct H as (Hs & s' & H).
  apply Match_reads in H. destruct H as (w & new & E & He & _).
  assert (Hl : length (skipn k s) = length w + length s')
    by (rewrite E, length_app; reflexivity).
  rewrite length_skipn in Hl. lia.
Qed.

(** As many searches as the text has characters, and one more, find every
    match that a longer loop finds. *)
Lemma finditer_from_enough r t : forall n m i,
  S (length t) - i <= n -> S (length t) - i <= m ->
  finditer_from n r t i = finditer_from m r t i.
Proof.
  induction n as [|n IH]; intros m i Hn Hm.
  - destruct m as [|m]; simpl; auto.
    destruct (length t <? i) eqn:E; auto. apply Nat.ltb_ge in E. lia.
  - destruct m as [|m]; simpl.
    + destruct (length t <? i) eqn:E; auto. apply Nat.ltb_ge in E. lia.
    + destruct (length t <? i) eqn:E; auto. apply Nat.ltb_ge in E.
      destruct (search_from r (skipn i t) i) as [m0|] eqn:Es; auto.
      apply search_from_bounds in Es. f_equal.
      destruct (m_start m0 <? m_end m0) eqn:El.
      * apply Nat.ltb_lt in El. apply IH; lia.
      * apply IH; lia.
Qed.

(** ** Further facts on the loops of the extractor *)

(** A header match is never empty, so [finditer] goes on from the end of
    each header. *)
Lemma header_match_moves s i m :
  match_at header_pattern s i = Some m -> m_start m < m_end m.
Proof.
  intros H. apply match_at_sound in H. destruct H as (-> & s' & H).
  apply Match_reads in H. destruct H as (w & new & _ & -> & L & _).
  cut (w <> []); [destruct w; simpl; [congruence|lia]|].
  destruct L as (w0 & w1 & -> & _ & (w2 & w3 & -> & _ & (w4 & w5 & -> & _ &
                 (w6 & w7 & -> & _ & (w8 & w9 & -> & _ &
                 (wa & wb & -> & (a & -> & _) & _)))))).
  intros E. apply (f_equal (@length ascii)) in E.
  rewrite !length_app in E. simpl in E. lia.
Qed.

(** An audit label with blanks only: the pattern matches, the text of the
    group is one blank, the field is empty after [strip] and the record is
    not appended. *)
Lemma blank_audit_dropped :
  length (finditer header_pattern blank_audit_page) = 1 /\
  occurs (str "Audit:") blank_audit_page = true /\
  page_records blank_audit_page = [] /\
  extract_recommendations [blank_audit_page] = Ok [].
Proof. vm_compute. auto. Qed.

Lemma find_index_spec {A : Type} (p : A -> bool) (l : list A) :
  match find_index p l with
  | Some i =>
      (exists x, nth_error l i = Some x /\ p x = true) /\
      forall j y, j < i -> nth_error l j = Some y -> p y = false
  | None => forall x, In x l -> p x = false
  end.
Proof.
  induction l as [|x l IH]; simpl.
  - contradiction.
  - destruct (p x) eqn:E.
    + split; [exists x; auto|]. intros j y Hj; lia.
    + destruct (find_index p l) as [i|]; simpl.
      * destruct IH as ((y & Hy & Hp) & Hbefore). split; [exists y; auto|].
        intros [|j] z Hj; simpl; [congruence|]. apply Hbefore; lia.
      * intros y [<-|Hy]; auto.
Qed.

(** X19: what [find_recommendations_start_page] returns: the index, below
    30, of the first page on which the start pattern is found, or 15 when
    the pattern is found on none of the first 30 pages. *)
Lemma start_page_cases pages :
  (find_recommendations_start_page pages = 15 /\
   forall t, In t (firstn 30 pages) -> search start_pattern t = None) \/
  (exists t,
     find_recommendations_start_page pages < 30 /\
     nth_error pages (find_recommendations_start_page pages) = Some t /\
     search start_pattern t <> None /\
     forall j u, j < find_recommendations_start_page pages ->
                 nth_error pages j = Some u -> search start_pattern u = None).
Proof.
  unfold find_recommendations_start_page. rewrite firstn_min_length.
  pose proof (find_index_spec (fun t => is_some (search start_pattern t))
                              (firstn 30 pages)) as H.
  destruct (find_index _ (firstn 30 pages)) as [i|].
  - right. destruct H as ((t & Ht & Hp) & Hbefore).
    assert (Hi : i < 30).
    { rewrite nth_error_firstn in Ht.
      destruct (i <? 30) eqn:E; [apply Nat.ltb_lt in E; assumption|discriminate]. }
    exists t. splits; auto.
    + rewrite nth_error_firstn in Ht.
      destruct (i <? 30) eqn:E; [assumption|apply Nat.ltb_ge in E; lia].
    + destruct (search start_pattern t); [discriminate|discriminate].
    + intros j u Hj Hu.
      assert (Hu' : nth_error (firstn 30 pages) j = Some u).
      { rewrite nth_error_firstn.
        destruct (j <? 30) eqn:E; [assumption|apply Nat.ltb_ge in E; lia]. }
      specialize (Hbefore j u Hj Hu').
      destruct (search start_pattern u); [discriminate|reflexivity].
  - left. split; auto. intros t Ht. specialize (H t Ht).
    destruct (search start_pattern t); [discriminate|reflexivity].
Qed.

(** * Further properties of the code *)

(** ** The text of a group *)

Lemma reads_group t m n g : reads t g n (m_caps m) -> lang g (group t m n).
Proof.
  intros (p & w & rest & Hs & Ht & L). unfold group, slice. rewrite Hs, Ht.
  replace (p + length w - p) with (length w + 0) by lia.
  rewrite firstn_app_2. simpl. rewrite app_nil_r. assumption.
Qed.

Lemma group_text t m n g :
  reads t g n (m_caps m) ->
  exists p rest, skipn p t = group t m n ++ rest.
Proof.
  intros (p & w & rest & Hs & Ht & L). exists p, rest.
  unfold group, slice. rewrite Hs, Ht.
  replace (p + length w - p) with (length w + 0) by lia.
  rewrite firstn_app_2. simpl. rewrite app_nil_r. reflexivity.
Qed.

(** The part of a pattern after a prefix matches further on in the text. *)
Lemma Match_skip pre r t i c s' i' c' :
  Match (Seq pre r) (skipn i t) i c s' i' c' ->
  exists i1 c1, Match r (skipn i1 t) i1 c1 s' i' c'.
Proof.
  intros H. apply Match_seq_inv in H. destruct H as (s1 & i1 & c1 & H0 & H).
  apply Match_reads in H0. destruct H0 as (w0 & n0 & E0 & -> & _).
  exists (i + length w0), c1.
  replace (skipn (i + length w0) t) with s1; [assumption|].
  rewrite Nat.add_comm, <- skipn_skipn, E0, skipn_app, skipn_all, Nat.sub_diag.
  reflexivity.
Qed.

Lemma Match_grp_last n g t i c s' i' c' :
  Match (Grp n g) (skipn i t) i c s' i' c' -> reads t g n c'.
Proof.
  intros H. apply Match_grp_inv in H. destruct H as (c1 & -> & H).
  apply Match_reads in H. destruct H as (w & n1 & E & -> & L & _).
  exists i, w, s'. simpl. rewrite Nat.eqb_refl. auto.
Qed.

Lemma Match_grp_reads n g post t i c s' i' c' :
  Match (Seq (Grp n g) post) (skipn i t) i c s' i' c' ->
  ~ In n (groups post) -> reads t g n c'.
Proof.
  intros H Hn. apply Match_seq_inv in H. destruct H as (s1 & i1 & c1 & Hg & Hp).
  apply Match_grp_inv in Hg. destruct Hg as (c0 & -> & Hg).
  apply Match_reads in Hg. destruct Hg as (w & n1 & E & -> & L & _).
  apply Match_reads in Hp. destruct Hp as (w2 & n2 & _ & _ & _ & -> & G).
  exists i, w, s1. splits; auto.
  apply span_of_app. eapply Forall_groups_notin; eauto.
Qed.

(** A match found by [search] or [finditer] is a match at some position. *)
Lemma search_Match r t m :
  search r t = Some m ->
  exists a s', Match r (skipn a t) a [] s' (m_end m) (m_caps m).
Proof.
  unfold search. intros H. apply search_from_sound in H.
  destruct H as (k & _ & H). apply match_at_sound in H.
  destruct H as (_ & s' & H). exists k, s'. exact H.
Qed.

Lemma finditer_Match r t m :
  In m (finditer r t) ->
  exists a s', Match r (skipn a t) a [] s' (m_end m) (m_caps m).
Proof.
  intros H. apply finditer_sound in H. destruct H as (a & H).
  apply match_at_sound in H. destruct H as (_ & s' & H). eauto.
Qed.

(** The three groups of a header match. *)
Lemma header_groups t m :
  In m (finditer header_pattern t) ->
  reads t num_pattern 1 (m_caps m) /\
  reads t (upper >> plus_lazy not_nl)%re 2 (m_caps m) /\
  reads t status_pattern 3 (m_caps m).
Proof.
  intros H. apply finditer_Match in H. destruct H as (a & s' & H).
  unfold header_pattern in H.
  apply Match_skip in H. destruct H as (i1 & c1 & H).
  split; [eapply Match_grp_reads; [exact H|vm_compute; intuition discriminate]|].
  apply Match_skip in H. destruct H as (i2 & c2 & H).
  apply Match_skip in H. destruct H as (i3 & c3 & H).
  split; [eapply Match_grp_reads; [exact H|vm_compute; intuition discriminate]|].
  apply Match_skip in H. destruct H as (i4 & c4 & H).
  apply Match_skip in H. destruct H as (i5 & c5 & H).
  apply Match_skip in H. destruct H as (i6 & c6 & H).
  eapply Match_grp_reads; [exact H|vm_compute; intuition discriminate].
Qed.

(** ** [strip] *)

Lemma lstrip_cons a s : lstrip (a :: s) = a :: s <-> isspace a = false.
Proof.
  simpl. destruct (isspace a) eqn:E; split; auto; try discriminate.
  intros H. exfalso.
  assert (Hl : forall u, length (lstrip u) <= length u).
  { induction u as [|b u IH]; simpl; auto. destruct (isspace b); simpl; lia. }
  specialize (Hl s). rewrite H in Hl. simpl in Hl. lia.
Qed.

Lemma lstrip_idem s : lstrip (lstrip s) = lstrip s.
Proof.
  induction s as [|a s IH]; simpl; auto.
  destruct (isspace a) eqn:E; auto. simpl. rewrite E. reflexivity.
Qed.

Lemma lstrip_suffix s : exists pre, s = pre ++ lstrip s.
Proof.
  induction s as [|a s (pre & IH)]; simpl.
  - exists []; reflexivity.
  - destruct (isspace a).
    + exists (a :: pre). simpl. congruence.
    + exists []; reflexivity.
Qed.

Lemma lstrip_prefix_fixed x y :
  lstrip (x ++ y) = x ++ y -> x <> [] -> lstrip x = x.
Proof.
  destruct x as [|a x]; [congruence|]. intros H _.
  apply lstrip_cons. apply (proj1 (lstrip_cons a (x ++ y))). exact H.
Qed.

(** What [strip] leaves has no blank at either end. *)
Lemma strip_ends s :
  lstrip (strip s) = strip s /\ lstrip (rev (strip s)) = rev (strip s).
Proof.
  unfold strip. rewrite rev_involutive. split; [|apply lstrip_idem].
  destruct (lstrip_suffix (rev (lstrip s))) as (pre & E).
  destruct (lstrip (rev (lstrip s))) as [|b v] eqn:Ev; [reflexivity|].
  apply (f_equal (@rev ascii)) in E. rewrite rev_involutive, rev_app_distr in E.
  apply lstrip_prefix_fixed with (y := rev pre).
  - rewrite <- E. apply lstrip_idem.
  - simpl. intros H. apply app_eq_nil in H. destruct H; discriminate.
Qed.

Lemma strip_fixed s : lstrip s = s -> lstrip (rev s) = rev s -> strip s = s.
Proof.
  intros H1 H2. unfold strip. rewrite H1, H2. apply rev_involutive.
Qed.

Lemma strip_idem s : strip (strip s) = strip s.
Proof. destruct (strip_ends s). apply strip_fixed; assumption. Qed.

Lemma part_of_refl (w : text) : part_of w w.
Proof. exists [], []. rewrite app_nil_r. reflexivity. Qed.

Lemma part_of_trans (a b c : text) : part_of a b -> part_of b c -> part_of a c.
Proof.
  intros (p1 & q1 & ->) (p2 & q2 & ->). exists (p2 ++ p1), (q1 ++ q2).
  rewrite <- !app_assoc. reflexivity.
Qed.

Lemma part_of_In (w t : text) a : part_of w t -> In a w -> In a t.
Proof.
  intros (p & q & ->) H. apply in_or_app; right. apply in_or_app; left; auto.
Qed.

Lemma strip_part s : part_of (strip s) s.
Proof.
  unfold strip. destruct (lstrip_suffix s) as (p1 & E1).
  destruct (lstrip_suffix (rev (lstrip s))) as (p2 & E2).
  apply (f_equal (@rev ascii)) in E2. rewrite rev_involutive, rev_app_distr in E2.
  exists p1, (rev p2). rewrite <- E2. exact E1.
Qed.

Lemma firstn_part n (s : text) : part_of (firstn n s) s.
Proof.
  exists [], (skipn n s). simpl. symmetry. apply firstn_skipn.
Qed.

Lemma skipn_part n (s : text) : part_of (skipn n s) s.
Proof.
  exists (firstn n s), []. rewrite app_nil_r. symmetry. apply firstn_skipn.
Qed.

Lemma slice_part (s : text) a b : part_of (slice s a b) s.
Proof.
  unfold slice. eapply part_of_trans; [apply firstn_part|apply skipn_part].
Qed.

Lemma group_part t m n : part_of (group t m n) t.
Proof.
  unfold group. destruct (span_of n (m_caps m)) as [[a b]|].
  - apply slice_part.
  - exists [], t. reflexivity.
Qed.

(** ** The fields of the header *)

Lemma upper_facts a : isupper a = true -> isspace a = false /\ a <> nl.
Proof.
  destruct a as [[] [] [] [] [] [] [] []]; vm_compute; intros H;
    try discriminate H; split; congruence.
Qed.

Lemma lstrip_keeps_last x a :
  isspace a = false -> exists y, lstrip (x ++ [a]) = y ++ [a].
Proof.
  intros Ha. induction x as [|b x (y & IH)]; simpl.
  - rewrite Ha. exists []; reflexivity.
  - destruct (isspace b); [eauto|]. exists (b :: x); reflexivity.
Qed.

Lemma lang_plus_lazy_cls p w :
  lang (plus_lazy (Cls p)) w -> w <> [] /\ forallb p w = true.
Proof.
  intros (w1 & w2 & -> & (a & -> & Ha) & H). apply lang_rep_cls in H.
  split; simpl; [discriminate|]. rewrite Ha; assumption.
Qed.

Lemma lang_status w :
  lang status_pattern w ->
  In w [str "Automated"; str "Manual"; str "Scored"; str "Not Scored"].
Proof.
  unfold status_pattern. simpl alts. intros [H|[H|[H|H]]];
    apply lang_lit in H; subst; simpl; auto.
Qed.

(** A title as the header pattern reads it, after [strip]. *)
Lemma title_shape w :
  lang (upper >> plus_lazy not_nl)%re w ->
  (exists a u, strip w = a :: u /\ isupper a = true) /\ ~ In nl (strip w).
Proof.
  intros (w1 & w2 & -> & (a & -> & Ha) & H).
  apply lang_plus_lazy_cls in H. destruct H as (_ & Hw2).
  destruct (upper_facts a Ha) as (Hsp & Hnl).
  split.
  - unfold strip. replace (lstrip ([a] ++ w2)) with ([a] ++ w2)
      by (symmetry; apply lstrip_cons; assumption).
    simpl app. simpl rev.
    destruct (@lstrip_keeps_last (rev w2) a Hsp) as (y & ->).
    rewrite rev_app_distr. simpl. eauto.
  - intros Hin. apply (@part_of_In _ _ nl (strip_part _)) in Hin.
    destruct Hin as [Hin|Hin]; [congruence|].
    rewrite forallb_forall in Hw2. specialize (Hw2 _ Hin).
    unfold nl in Hw2. rewrite Ascii.eqb_refl in Hw2. discriminate.
Qed.

(** X1: every record of the final list has one of the four status words,
    and its title starts with a capital letter, holds no line break and has
    no blank at either end. *)
Theorem header_fields_shape (pages : list text) :
  exists recs,
    extract_recommendations pages = Ok recs /\
    Forall (fun rec =>
              In (status rec)
                 [str "Automated"; str "Manual"; str "Scored";
                  str "Not Scored"] /\
              (exists a u, title rec = a :: u /\ isupper a = true) /\
              ~ In nl (title rec) /\
              strip (title rec) = title rec) recs.
Proof.
  destruct (extract_recommendations_total pages) as (recs & H).
  exists recs; split; [assumption|]. apply Forall_forall. intros rec Hin.
  eapply extract_recommendations_incl in Hin; eauto.
  apply appended_inv in Hin. destruct Hin as (t & m & _ & Hm & -> & _).
  destruct (header_groups t m Hm) as (_ & H2 & H3).
  apply reads_group in H2, H3.
  change (status (record_of_match t m)) with (group t m 3).
  change (title (record_of_match t m)) with (strip (group t m 2)).
  destruct (title_shape H2) as (Hup & Hnl).
  splits; auto using lang_status, strip_idem.
Qed.

(** ** The level of a record and the colour of its cell *)

Lemma lang_profile w :
  lang ((lit "Level " >> plus digit) <|> lit "Profile Applicability")%re w ->
  w = str "Profile Applicability" \/
  exists d ds, isdigit d = true /\ forallb isdigit ds = true /\
               w = str "Level " ++ d :: ds.
Proof.
  intros [(w1 & w2 & -> & H1 & H2)|H].
  - right. apply lang_lit in H1. subst w1.
    destruct H2 as (x & y & -> & (d & -> & Hd) & Hy).
    apply lang_rep_cls in Hy. exists d, y. auto.
  - left. apply lang_lit in H. assumption.
Qed.

Lemma profile_cases n t s content :
  let p := profile (_extract_recommendation_details n t s content) in
  p = str "Profile Applicability" \/
  exists d ds, isdigit d = true /\ forallb isdigit ds = true /\
               p = str "Level " ++ d :: ds.
Proof.
  unfold _extract_recommendation_details. cbn [profile].
  destruct (search profile_pattern content) as [m|] eqn:E.
  - apply lang_profile. apply reads_group.
    apply search_Match in E. destruct E as (a & s' & H).
    unfold profile_pattern in H.
    apply Match_skip in H. destruct H as (i1 & c1 & H).
    apply Match_skip in H. destruct H as (i2 & c2 & H).
    eapply Match_grp_last; eauto.
  - right. exists "1"%char, []. auto.
Qed.

Lemma prefix_of_digits a w ds :
  isdigit a = false -> forallb isdigit ds = true ->
  occurs (a :: w) ds = false.
Proof.
  intros Ha. induction ds as [|d ds IH]; simpl; auto. intros H.
  apply andb_prop in H. destruct H as [Hd Hds].
  destruct (Ascii.eqb a d) eqn:E.
  - apply Ascii.eqb_eq in E. congruence.
  - simpl. auto.
Qed.

(** "Level 1" and "Level 2" in a level: the first digit decides. *)
Lemma occurs_level c d ds :
  isdigit c = true -> isdigit d = true -> forallb isdigit ds = true ->
  occurs (str "Level " ++ [c]) (str "Level " ++ d :: ds) = Ascii.eqb c d.
Proof.
  intros Hc Hd Hds.
  assert (Hrest : occurs (str "Level " ++ [c]) (d :: ds) = false).
  { apply prefix_of_digits; [reflexivity|]. simpl. rewrite Hd. assumption. }
  cbn -[occurs] in Hrest. cbn. cbn in Hrest.
  destruct ds as [|e ds]; cbn in *.
  - rewrite !andb_false_r in *. rewrite !orb_false_r. rewrite andb_true_r.
    reflexivity.
  - rewrite Hrest. rewrite !orb_false_r, andb_true_r. reflexivity.
Qed.

(** X2: the level of every record of the final list is "Profile
    Applicability" or "Level " and a string of digits ("Level 1" when the
    window names no level).  The Level cell is filled FFC000 when the
    digits start with 1, FFFF00 when they start with 2, and is not filled
    for other digits and for "Profile Applicability". *)
Theorem level_and_fill (pages : list text) :
  exists recs,
    extract_recommendations pages = Ok recs /\
    Forall (fun rec =>
              (profile rec = str "Profile Applicability" /\
               level_fill rec = None) \/
              exists d ds,
                isdigit d = true /\ forallb isdigit ds = true /\
                profile rec = str "Level " ++ d :: ds /\
                level_fill rec
                = if Ascii.eqb "1" d then Some (str "FFC000")
                  else if Ascii.eqb "2" d then Some (str "FFFF00")
                       else None) recs.
Proof.
  destruct (extract_recommendations_total pages) as (recs & H).
  exists recs; split; [assumption|]. apply Forall_forall. intros rec Hin.
  eapply extract_recommendations_incl in Hin; eauto.
  apply appended_inv in Hin. destruct Hin as (t & m & _ & _ & -> & _).
  unfold record_of_match, level_fill.
  destruct (profile_cases (group t m 1) (strip (group t m 2)) (group t m 3)
              (slice t (m_end m) (m_end m + 3500)))
    as [E|(d & ds & Hd & Hds & E)]; cbv zeta in E; rewrite E.
  - left. split; [reflexivity|]. vm_compute. reflexivity.
  - right. exists d, ds. splits; auto.
    change (str "Level 1") with (str "Level " ++ ["1"%char]).
    change (str "Level 2") with (str "Level " ++ ["2"%char]).
    rewrite !occurs_level by auto. reflexivity.
Qed.

(** ** The fields of the content window *)

Lemma field_of_strip r content :
  exists g, field_of r content = strip g /\ part_of g content.
Proof.
  unfold field_of. destruct (search r content) as [m|].
  - exists (group content m 1). split; [reflexivity|apply group_part].
  - exists []. split; [reflexivity|]. exists [], content; reflexivity.
Qed.

Lemma tidy_cut limit g : tidy limit (firstn limit (strip g)).
Proof.
  destruct (strip_ends g) as (Hl & _). split.
  - destruct limit as [|n]; [reflexivity|].
    destruct (strip g) as [|a x]; [reflexivity|]. simpl firstn.
    apply lstrip_cons. apply (proj1 (lstrip_cons a x)). exact Hl.
  - intros Hlen. rewrite length_firstn in Hlen.
    rewrite firstn_all2 by lia. apply strip_idem.
Qed.

Lemma field_tidy limit r content : tidy limit (firstn limit (field_of r content)).
Proof.
  destruct (field_of_strip r content) as (g & -> & _). apply tidy_cut.
Qed.

Lemma field_part limit r content :
  part_of (firstn limit (field_of r content)) content.
Proof.
  destruct (field_of_strip r content) as (g & -> & Hg).
  eapply part_of_trans; [apply firstn_part|].
  eapply part_of_trans; [apply strip_part|exact Hg].
Qed.

(** X3: no field of a record of the final list starts with a blank, and a
    field shorter than its limit does not end with one: a blank at the end
    is left only by the cut at the limit. *)
Theorem fields_tidy (pages : list text) :
  exists recs,
    extract_recommendations pages = Ok recs /\
    Forall (fun rec =>
              tidy 1500 (description rec) /\ tidy 1000 (rationale rec) /\
              tidy 1000 (impact rec) /\ tidy 2500 (audit rec) /\
              tidy 1500 (remediation rec) /\ tidy 500 (default_value rec) /\
              tidy 800 (references rec)) recs.
Proof.
  destruct (extract_recommendations_total pages) as (recs & H).
  exists recs; split; [assumption|]. apply Forall_forall. intros rec Hin.
  eapply extract_recommendations_incl in Hin; eauto.
  apply appended_inv in Hin. destruct Hin as (t & m & _ & _ & -> & _).
  unfold record_of_match, _extract_recommendation_details.
  cbn [description rationale impact audit remediation default_value references].
  splits; apply field_tidy.
Qed.

(** X4: the extractor copies: the number, title, status and the seven
    fields of a record of the final list are pieces of the text of one
    page of the document, and so is its level unless it is the default
    "Level 1". *)
Theorem fields_from_page (pages : list text) :
  exists recs,
    extract_recommendations pages = Ok recs /\
    Forall (fun rec =>
              exists t,
                In t pages /\
                part_of (num rec) t /\ part_of (title rec) t /\
                part_of (status rec) t /\
                part_of (description rec) t /\ part_of (rationale rec) t /\
                part_of (impact rec) t /\ part_of (audit rec) t /\
                part_of (remediation rec) t /\
                part_of (default_value rec) t /\
                part_of (references rec) t /\
                (part_of (profile rec) t \/ profile rec = str "Level 1"))
           recs.
Proof.
  destruct (extract_recommendations_total pages) as (recs & H).
  exists recs; split; [assumption|]. apply Forall_forall. intros rec Hin.
  eapply extract_recommendations_incl in Hin; eauto.
  apply appended_inv in Hin. destruct Hin as (t & m & Ht & _ & -> & _).
  exists t. split; [eapply in_skipn; eauto|].
  unfold record_of_match, _extract_recommendation_details.
  cbn [num title status profile description rationale impact audit
       remediation default_value references].
  assert (Hw : forall limit r,
             part_of (firstn limit
                        (field_of r (slice t (m_end m) (m_end m + 3500)))) t).
  { intros limit r. eapply part_of_trans; [apply field_part|apply slice_part]. }
  splits; auto using group_part.
  - eapply part_of_trans; [apply strip_part|apply group_part].
  - destruct (search profile_pattern _) as [m'|]; [left|right; reflexivity].
    eapply part_of_trans; [apply group_part|apply slice_part].
Qed.

(** ** The start page without a match *)

Lemma find_index_none {A : Type} (p : A -> bool) (l : list A) :
  (forall x, In x l -> p x = false) -> find_index p l = None.
Proof.
  induction l as [|x l IH]; simpl; intros H; auto.
  rewrite (H x) by auto. rewrite IH by auto. reflexivity.
Qed.

(** X5: when the start pattern is found on none of the first 30 pages, the
    extraction reads the pages from index 15 on and no other; a document of
    at most 15 pages then gives no record, whatever headers it holds. *)
Theorem start_fallback_skips_pages (pages : list text) :
  (forall t, In t (firstn 30 pages) -> search start_pattern t = None) ->
  appended pages = flat_map page_records (skipn 15 pages) /\
  (length pages <= 15 -> extract_recommendations pages = Ok []).
Proof.
  intros H.
  assert (E : find_recommendations_start_page pages = 15).
  { unfold find_recommendations_start_page. rewrite firstn_min_length.
    rewrite find_index_none; auto. intros t Ht. rewrite (H t Ht). reflexivity. }
  assert (Ea : appended pages = flat_map page_records (skipn 15 pages))
    by (unfold appended; rewrite E; reflexivity).
  split; [assumption|]. intros Hlen.
  unfold extract_recommendations. rewrite Ea, skipn_all2 by assumption.
  reflexivity.
Qed.

Lemma start_fallback_skips_pages_witness :
  (forall t, In t (firstn 30 [first_line_page]) ->
             search start_pattern t = None) /\
  appended [first_line_page]
  = flat_map page_records (skipn 15 [first_line_page]) /\
  (length [first_line_page] <= 15 ->
   extract_recommendations [first_line_page] = Ok []).
Proof.
  assert (H : forall t, In t (firstn 30 [first_line_page]) ->
                        search start_pattern t = None).
  { intros t [<-|[]]. vm_compute. reflexivity. }
  split; [exact H|]. apply (@start_fallback_skips_pages [first_line_page] H).
Defined.

(** ** Title and version *)

Lemma metadata_step_title tv t m :
  search title_pattern t = Some m ->
  fst (metadata_step tv t) = str "CIS " ++ group t m 1 ++ str " Benchmark".
Proof.
  intros H. unfold metadata_step. rewrite H.
  destruct (search version_pattern t); reflexivity.
Qed.

Lemma metadata_step_version tv t m :
  search version_pattern t = Some m ->
  snd (metadata_step tv t) = str "v" ++ group t m 1.
Proof.
  intros H. unfold metadata_step. rewrite H. reflexivity.
Qed.

(** X6: title and version are found apart from each other, each on the
    last of the first five pages that matches its pattern: the title is
    "CIS <name> Benchmark" with the name of that page's match, whatever the
    case of the letters in the text, and the version is "v" and the
    numbers of that page's match. *)
Theorem metadata_last_match_wins
  (pages l1 l2 k1 k2 : list text) (t u : text) (m m' : rmatch) :
  firstn 5 pages = l1 ++ t :: l2 ->
  search title_pattern t = Some m ->
  (forall x, In x l2 -> search title_pattern x = None) ->
  firstn 5 pages = k1 ++ u :: k2 ->
  search version_pattern u = Some m' ->
  (forall x, In x k2 -> search version_pattern x = None) ->
  extract_metadata pages
  = (str "CIS " ++ group t m 1 ++ str " Benchmark", str "v" ++ group u m' 1).
Proof.
  intros E1 Ht Hl2 E2 Hu Hk2.
  unfold extract_metadata. rewrite firstn_min_length.
  apply injective_projections; cbn [fst snd].
  - rewrite E1, fold_left_app. cbn [fold_left].
    rewrite metadata_fold_title by assumption.
    apply metadata_step_title; assumption.
  - rewrite E2, fold_left_app. cbn [fold_left].
    rewrite metadata_fold_version by assumption.
    apply metadata_step_version; assumption.
Qed.

Lemma metadata_last_match_wins_witness :
  firstn 5 metadata_example
  = [str "CIS Ubuntu Linux Benchmark v1.0.0"]
    ++ str "cis  Foo benchmark"
    :: [str "draft v2.3.4 of the text"; str "nothing here"] /\
  extract_metadata metadata_example = (str "CIS Foo Benchmark", str "v2.3.4").
Proof.
  split; [reflexivity|].
  apply (@metadata_last_match_wins metadata_example
           [str "CIS Ubuntu Linux Benchmark v1.0.0"]
           [str "draft v2.3.4 of the text"; str "nothing here"]
           [str "CIS Ubuntu Linux Benchmark v1.0.0"; str "cis  Foo benchmark"]
           [str "nothing here"]
           (str "cis  Foo benchmark") (str "draft v2.3.4 of the text")
           (RMatch 0 18 [(1, (5, 8))]) (RMatch 6 12 [(1, (7, 12))])).
  - reflexivity.
  - vm_compute; reflexivity.
  - intros x [<-|[<-|[]]]; vm_compute; reflexivity.
  - reflexivity.
  - vm_compute; reflexivity.
  - intros x [<-|[]]; vm_compute; reflexivity.
Defined.

Lemma title_group t m :
  search title_pattern t = Some m ->
  group t m 1 <> [] /\ ~ In nl (group t m 1).
Proof.
  intros H. apply search_Match in H. destruct H as (a & s' & H).
  unfold title_pattern in H.
  apply Match_skip in H. destruct H as (i1 & c1 & H).
  apply Match_skip in H. destruct H as (i2 & c2 & H).
  apply Match_grp_reads in H; [|vm_compute; intuition discriminate].
  apply reads_group with (m := m) in H.
  apply lang_plus_lazy_cls in H. destruct H as (Hne & Hall).
  split; [assumption|]. intros Hin.
  rewrite forallb_forall in Hall. specialize (Hall _ Hin).
  unfold nl in Hall. rewrite Ascii.eqb_refl in Hall. discriminate.
Qed.

Lemma version_group t m :
  search version_pattern t = Some m ->
  exists a b c, digits1 a /\ digits1 b /\ digits1 c /\
                group t m 1 = a ++ str "." ++ b ++ str "." ++ c.
Proof.
  intros H. apply search_Match in H. destruct H as (p & s' & H).
  unfold version_pattern in H.
  apply Match_skip in H. destruct H as (i1 & c1 & H).
  apply Match_grp_last in H. apply reads_group with (m := m) in H.
  destruct H as (a & w1 & -> & Ha & (d1 & w2 & -> & Hd1 &
                 (b & w3 & -> & Hb & (d2 & c & -> & Hd2 & Hc)))).
  apply lang_lit in Hd1, Hd2. subst d1 d2.
  apply lang_plus_digit in Ha, Hb, Hc.
  exists a, b, c. auto.
Qed.

(** X7: whatever the pages hold, the title is empty or "CIS <name>
    Benchmark" with a non-empty name without line break, the version is
    empty or "v<digits>.<digits>.<digits>", and pages after the fifth have
    no part in either. *)
Theorem metadata_shape (pages : list text) :
  (fst (extract_metadata pages) = [] \/
   exists name, name <> [] /\ ~ In nl name /\
                fst (extract_metadata pages)
                = str "CIS " ++ name ++ str " Benchmark") /\
  (snd (extract_metadata pages) = [] \/
   exists a b c, digits1 a /\ digits1 b /\ digits1 c /\
                 snd (extract_metadata pages)
                 = str "v" ++ a ++ str "." ++ b ++ str "." ++ c) /\
  extract_metadata pages = extract_metadata (firstn 5 pages).
Proof.
  assert (Hfive : extract_metadata pages = extract_metadata (firstn 5 pages)).
  { unfold extract_metadata. rewrite !firstn_min_length, firstn_firstn.
    reflexivity. }
  split; [|split; [|exact Hfive]]; unfold extract_metadata;
    rewrite firstn_min_length; generalize (firstn 5 pages) as l; intros l.
  - assert (H : forall tv : text * text,
               (fst tv = [] \/
                exists name, name <> [] /\ ~ In nl name /\
                             fst tv = str "CIS " ++ name ++ str " Benchmark") ->
               fst (fold_left metadata_step l tv) = [] \/
               exists name, name <> [] /\ ~ In nl name /\
                            fst (fold_left metadata_step l tv)
                            = str "CIS " ++ name ++ str " Benchmark").
    { induction l as [|t l IH]; intros tv Htv; [exact Htv|].
      cbn [fold_left]. apply IH.
      destruct (search title_pattern t) as [m|] eqn:E.
      - right. exists (group t m 1).
        destruct (title_group t E) as (Hne & Hnl). splits; auto.
        apply metadata_step_title; assumption.
      - unfold metadata_step. rewrite E.
        destruct (search version_pattern t); exact Htv. }
    apply H. left; reflexivity.
  - assert (H : forall tv : text * text,
               (snd tv = [] \/
                exists a b c, digits1 a /\ digits1 b /\ digits1 c /\
                              snd tv = str "v" ++ a ++ str "." ++ b
                                       ++ str "." ++ c) ->
               snd (fold_left metadata_step l tv) = [] \/
               exists a b c, digits1 a /\ digits1 b /\ digits1 c /\
                             snd (fold_left metadata_step l tv)
                             = str "v" ++ a ++ str "." ++ b ++ str "." ++ c).
    { induction l as [|t l IH]; intros tv Htv; [exact Htv|].
      cbn [fold_left]. apply IH.
      destruct (search version_pattern t) as [m|] eqn:E.
      - right. destruct (version_group t E) as (a & b & c & Ha & Hb & Hc & Hg).
        exists a, b, c. splits; auto.
        rewrite (@metadata_step_version tv t m E), Hg. reflexivity.
      - unfold metadata_step. rewrite E.
        destruct (search title_pattern t); exact Htv. }
    apply H. left; reflexivity.
Qed.

(** ** More on duplicates and on the sort *)

Lemma remove_duplicates_from_subseq l : forall seen,
  subseq (remove_duplicates_from seen l) l.
Proof.
  induction l as [|x l IH]; intros seen; simpl.
  - constructor.
  - destruct (mem (num x) seen); constructor; apply IH.
Qed.

Lemma remove_duplicates_from_fixed l : forall seen,
  NoDup (map num l) ->
  (forall rec, In rec l -> ~ In (num rec) seen) ->
  remove_duplicates_from seen l = l.
Proof.
  induction l as [|x l IH]; intros seen Hnd Hseen; simpl; auto.
  inversion Hnd as [|n ns Hx Hnd']; subst.
  replace (mem (num x) seen) with false
    by (symmetry; apply mem_not_In; apply Hseen; simpl; auto).
  f_equal. apply IH; auto.
  intros rec Hin [E|Hs].
  - apply Hx. rewrite E. apply in_map; assumption.
  - apply (Hseen rec); simpl; auto.
Qed.

(** X8: [_remove_duplicates] leaves records out and moves none: its result
    is the list without some elements, in the same order.  A list with
    distinct numbers is left as it is, and so is the result of
    [_remove_duplicates] itself. *)
Theorem remove_duplicates_keeps_order (l : list recommendation) :
  subseq (_remove_duplicates l) l /\
  (NoDup (map num l) -> _remove_duplicates l = l) /\
  _remove_duplicates (_remove_duplicates l) = _remove_duplicates l.
Proof.
  splits.
  - apply remove_duplicates_from_subseq.
  - intros H. apply remove_duplicates_from_fixed; auto.
  - apply remove_duplicates_from_fixed; auto.
    apply (remove_duplicates_from_spec l []).
Qed.

Lemma map_result_error {A B : Type} (f : A -> result B) (l : list A) :
  map_result f l = ValueError <-> exists x, In x l /\ f x = ValueError.
Proof.
  induction l as [|x l IH]; simpl.
  - split; [discriminate|intros (y & [] & _)].
  - destruct (f x) eqn:E; simpl.
    + destruct (map_result f l) eqn:E'; simpl.
      * split; [discriminate|]. intros (y & [<-|Hy] & Hf); [congruence|].
        assert (F : Ok l0 = @ValueError (list B)) by (apply (proj2 IH); eauto).
        discriminate F.
      * split; auto. intros _. destruct (proj1 IH eq_refl) as (y & Hy & Hf).
        eauto.
    + split; auto. intros _. exists x; auto.
Qed.

(** X9: the sort by number fails exactly when [int] rejects a component
    between the dots of the number of some record of the list. *)
Theorem sort_fails_iff_bad_component (recs : list recommendation) :
  sort_by_num recs = ValueError <->
  exists rec p, In rec recs /\ In p (split "." (num rec)) /\
                py_int p = ValueError.
Proof.
  unfold sort_by_num. split.
  - intros H.
    destruct (map_result _ recs) as [keyed|] eqn:E; [discriminate|].
    apply map_result_error in E. destruct E as (rec & Hin & Hk).
    destruct (sort_key rec) eqn:Ek; [discriminate|].
    apply map_result_error in Ek. destruct Ek as (p & Hp & Hv).
    exists rec, p. auto.
  - intros (rec & p & Hin & Hp & Hv).
    assert (Ek : sort_key rec = ValueError)
      by (apply map_result_error; eauto).
    assert (E : map_result (fun rec => k <- sort_key rec ;; Ok (k, rec)) recs
                = ValueError).
    { apply map_result_error. exists rec. split; auto. rewrite Ek. reflexivity. }
    rewrite E. reflexivity.
Qed.

Section SortedInput.
Variables (K A : Type) (lt : K -> K -> bool).

Lemma insert_front (x : K * A) l :
  Forall (key_le lt x) l -> insert lt x l = x :: l.
Proof.
  intros H. destruct l as [|y l]; [reflexivity|]. simpl.
  inversion H as [|y' l' Hy _]; subst. unfold key_le in Hy. rewrite Hy.
  reflexivity.
Qed.

(** A list that is in order is left as it is. *)
Lemma stable_sort_fixed (l : list (K * A)) :
  StronglySorted (key_le lt) l -> stable_sort lt l = l.
Proof.
  induction 1 as [|x l Hs IH Hx]; simpl; auto.
  rewrite IH. apply insert_front; assumption.
Qed.
End SortedInput.

Lemma keyed_again l :
  Forall keyed_ok l ->
  map_result (fun rec => k <- sort_key rec ;; Ok (k, rec)) (map snd l) = Ok l.
Proof.
  induction 1 as [|[k rec] l Hp _ IH]; simpl; auto.
  unfold keyed_ok in Hp. simpl in Hp. rewrite Hp. simpl. rewrite IH.
  reflexivity.
Qed.

(** X10: sorting twice is sorting once: the sort by number leaves its own
    result, and so the final list of the extractor, as it is. *)
Theorem sort_twice (recs out : list recommendation) :
  sort_by_num recs = Ok out -> sort_by_num out = Ok out.
Proof.
  unfold sort_by_num. intros H.
  destruct (map_result _ recs) as [keyed|] eqn:E; [|discriminate].
  simpl in H. inversion H; subst; clear H.
  destruct (keyed_inv _ E) as [_ Hk].
  assert (Hk' : Forall keyed_ok (stable_sort list_lt keyed))
    by (eapply Permutation_Forall; [apply stable_sort_perm|exact Hk]).
  rewrite (keyed_again Hk'). simpl.
  rewrite stable_sort_fixed; [reflexivity|].
  apply stable_sort_sorted; auto using list_lt_asym, list_lt_between.
Qed.

Lemma sort_twice_witness :
  sort_by_num (_remove_duplicates (appended [page_tie]))
  = Ok (match extract_recommendations [page_tie] with
        | Ok l => l
        | ValueError => []
        end) /\
  sort_by_num (match extract_recommendations [page_tie] with
               | Ok l => l
               | ValueError => []
               end)
  = Ok (match extract_recommendations [page_tie] with
        | Ok l => l
        | ValueError => []
        end).
Proof.
  assert (H : sort_by_num (_remove_duplicates (appended [page_tie]))
              = Ok (match extract_recommendations [page_tie] with
                    | Ok l => l
                    | ValueError => []
                    end)) by (vm_compute; reflexivity).
  split; [exact H|]. apply (@sort_twice _ _ H).
Defined.

(** ** The workbook of a run *)

(** The steps of [convert] on any pages: none fails. *)
Lemma convert_steps today pages :
  exists recs keys index,
    extract_recommendations pages = Ok recs /\
    sorted_keys (organize_by_section recs) = Ok keys /\
    create_index_sheet (fst (extract_metadata pages))
                       (snd (extract_metadata pages)) today
                       (organize_by_section recs) = Ok index /\
    convert today pages
    = Ok (index
          :: map (fun k =>
                    create_section_sheet (fst (extract_metadata pages)) k
                      (section_name k)
                      (section_recs (organize_by_section recs) k))
                 keys).
Proof.
  destruct (extract_recommendations_total pages) as (recs & Hrecs).
  pose proof (@section_keys_digits pages recs Hrecs) as Hdigits.
  destruct (@sorted_keys_total _ Hdigits) as (keys & Hkeys).
  assert (Hindex : exists index,
             create_index_sheet (fst (extract_metadata pages))
               (snd (extract_metadata pages)) today
               (organize_by_section recs) = Ok index).
  { unfold create_index_sheet. rewrite Hkeys. cbn [bind]. eauto. }
  destruct Hindex as (index & Hindex).
  exists recs, keys, index. splits; auto.
  unfold convert. destruct (extract_metadata pages) as [ti ve].
  cbn [fst snd] in *.
  rewrite Hrecs. cbn [bind]. rewrite Hkeys. cbn [bind].
  unfold generate. rewrite Hindex, Hkeys. reflexivity.
Qed.




Lemma section_sheet_rows benchmark_title section_num name recs :
  skipn 2 (rows (create_section_sheet benchmark_title section_num name recs))
  = map data_row recs.
Proof.
  unfold create_section_sheet.
  match goal with
  | |- context [fold_left section_step recs (?ws, 3)] =>
      destruct (section_fold_rows recs ws 3) as (-> & _)
  end.
  reflexivity.
Qed.



(** ** The order of the sections *)






(** ** The names of the sheets *)

Lemma get_In k d v : get k d = Some v -> In (k, v) d.
Proof.
  induction d as [|[k0 v0] d IH]; simpl; [discriminate|].
  destruct (text_eqb k k0) eqn:E; auto.
  apply text_eqb_eq in E; subst. intros H; inversion H; auto.
Qed.

(** The full name of the sheet of a section with a number of at most ten
    characters has at most 31 characters. *)
Lemma full_name_short k :
  length k <= 10 -> length (k ++ str ". " ++ section_name k) <= 31.
Proof.
  intros Hk. unfold section_name.
  destruct (get k SECTION_NAMES) as [n|] eqn:E.
  - apply get_In in E.
    assert (H : Forall (fun p => length (fst p ++ str ". " ++ snd p) <= 31)
                       SECTION_NAMES)
      by (repeat constructor; vm_compute; repeat constructor).
    rewrite Forall_forall in H. apply (H _ E).
  - rewrite !length_app. simpl. lia.
Qed.

Lemma sheet_name_full k :
  length k <= 10 ->
  sheet_name_of k (section_name k) = k ++ str ". " ++ section_name k.
Proof.
  intros H. unfold sheet_name_of. apply firstn_all2. apply full_name_short; auto.
Qed.

Lemma before_dot_inj (k k' r r' : text) :
  ~ In "."%char k -> ~ In "."%char k' ->
  k ++ "."%char :: r = k' ++ "."%char :: r' -> k = k'.
Proof.
  revert k'. induction k as [|a k IH]; intros [|b k'] Hk Hk' E; simpl in *.
  - reflexivity.
  - inversion E; subst. tauto.
  - inversion E; subst. tauto.
  - inversion E; subst. f_equal. apply IH; tauto.
Qed.

Lemma NoDup_map_on {A B : Type} (f : A -> B) (l : list A) :
  (forall x y, In x l -> In y l -> f x = f y -> x = y) ->
  NoDup l -> NoDup (map f l).
Proof.
  intros Hinj Hnd. induction Hnd as [|x l Hx Hnd IH]; simpl; constructor.
  - intros Hin. apply in_map_iff in Hin. destruct Hin as (y & Hy & Hin).
    apply Hx. rewrite (Hinj x y); simpl; auto.
  - apply IH. intros a b Ha Hb. apply Hinj; simpl; auto.
Qed.

Lemma digits_no_dot k : forallb isdigit k = true -> ~ In "."%char k.
Proof.
  intros H Hin. rewrite forallb_forall in H. specialize (H _ Hin).
  vm_compute in H. discriminate.
Qed.

(** X14: when the section numbers of the final list have at most ten
    digits, no sheet name is cut and the sheets of the workbook, the index
    among them, have distinct names. *)
Theorem sheet_names_distinct
  (today : text) (pages : list text) (recs : list recommendation)
  (wb : list sheet) :
  extract_recommendations pages = Ok recs ->
  convert today pages = Ok wb ->
  Forall (fun rec => length (main_section rec) <= 10) recs ->
  NoDup (map sheet_name wb) /\
  Forall (fun rec =>
            In (main_section rec ++ str ". "
                ++ section_name (main_section rec))
               (map sheet_name wb)) recs.
Proof.
  intros Hrecs Hwb Hshort.
  destruct (convert_steps today pages)
    as (recs' & keys & index & Hrecs' & Hkeys & Hindex & Hwb').
  rewrite Hrecs in Hrecs'. inversion Hrecs'; subst recs'; clear Hrecs'.
  rewrite Hwb in Hwb'. inversion Hwb'; subst wb; clear Hwb'.
  pose proof (@section_keys_digits pages recs Hrecs) as Hdigits.
  pose proof (@sorted_keys_perm _ _ Hkeys) as Hperm.
  destruct (organize_by_section_spec recs) as (Hnd & Hgroups & Hin).
  simpl in Hnd, Hgroups, Hin.
  assert (Hkey : forall k, In k keys ->
                           digits1 k /\ length k <= 10).
  { intros k Hk. apply Permutation_sym in Hperm.
    pose proof (Permutation_in _ Hperm Hk) as Hk'.
    split; [rewrite Forall_forall in Hdigits; auto|].
    apply in_map_iff in Hk'. destruct Hk' as ([k' l] & <- & Hkl). simpl.
    destruct (Hgroups k' l Hkl) as (Hne & Hl).
    destruct l as [|rec l]; [congruence|].
    assert (Hrec : In rec (filter (in_section k') recs))
      by (rewrite <- Hl; simpl; auto).
    apply filter_In in Hrec. destruct Hrec as (Hrec & Hs).
    apply text_eqb_eq in Hs. subst k'.
    rewrite Forall_forall in Hshort. auto. }
  assert (Hname : forall k, In k keys ->
            sheet_name (create_section_sheet (fst (extract_metadata pages)) k
                          (section_name k)
                          (section_recs (organize_by_section recs) k))
            = k ++ str ". " ++ section_name k).
  { intros k Hk. rewrite create_section_sheet_name.
    apply sheet_name_full. apply Hkey; assumption. }
  assert (Hidx : sheet_name index = index_title).
  { unfold create_index_sheet in Hindex. rewrite Hkeys in Hindex.
    cbn [bind] in Hindex. inversion Hindex; subst index.
    match goal with
    | |- context [fold_left (index_step ?d) keys (?ws, 5)] =>
        destruct (index_fold_rows d keys ws 5) as (_ & ->)
    end.
    reflexivity. }
  split.
  - cbn [map]. constructor.
    + rewrite Hidx, map_map. intros Hi. apply in_map_iff in Hi.
      destruct Hi as (k & Ek & Hk). rewrite (Hname k Hk) in Ek.
      destruct (Hkey k Hk) as ((Hne & Hd) & _).
      destruct k as [|a k]; [congruence|]. simpl in Hd.
      apply andb_prop in Hd. destruct Hd as [Ha _].
      inversion Ek as [Ea]. rewrite Ea in Ha. vm_compute in Ha. discriminate.
    + rewrite map_map. apply NoDup_map_on.
      * intros x y Hx Hy. rewrite (Hname x Hx), (Hname y Hy).
        apply before_dot_inj; apply digits_no_dot; apply Hkey; assumption.
      * eapply Permutation_NoDup; eauto.
  - apply Forall_forall. intros rec Hrec. cbn [map]. right.
    rewrite map_map. apply in_map_iff. exists (main_section rec).
    assert (Hk : In (main_section rec) keys).
    { eapply Permutation_in; [exact Hperm|].
      apply in_map_iff. eexists; split; [|apply Hin; exact Hrec]. reflexivity. }
    split; auto.
Qed.

Lemma sheet_names_distinct_witness :
  extract_recommendations [example_page_closed]
  = Ok [example_record (str "Edit /etc/modprobe.d/cramfs.conf.")] /\
  NoDup (map sheet_name
             (match convert [] [example_page_closed] with
              | Ok wb => wb
              | ValueError => []
              end)) /\
  Forall (fun rec =>
            In (main_section rec ++ str ". "
                ++ section_name (main_section rec))
               (map sheet_name
                    (match convert [] [example_page_closed] with
                     | Ok wb => wb
                     | ValueError => []
                     end)))
         [example_record (str "Edit /etc/modprobe.d/cramfs.conf.")].
Proof.
  assert (H : extract_recommendations [example_page_closed]
              = Ok [example_record (str "Edit /etc/modprobe.d/cramfs.conf.")])
    by (vm_compute; reflexivity).
  split; [exact H|].
  apply (@sheet_names_distinct [] [example_page_closed] _ _ H).
  - vm_compute; reflexivity.
  - repeat constructor.
Defined.

(** ** The cells and rows of the sheets *)

(** X15: in the final list the composed "Description & Impact" value of a
    record starts with the description, is the description when rationale
    and impact are empty, and has at most 3523 characters (1500, 1000 and
    1000 of the three fields and 23 of the two labels). *)
Theorem composed_description_bounds (pages : list text) :
  exists recs,
    extract_recommendations pages = Ok recs /\
    Forall (fun rec =>
              firstn (length (description rec)) (desc_full rec)
              = description rec /\
              (rationale rec = [] -> impact rec = [] ->
               desc_full rec = description rec) /\
              length (desc_full rec) <= 3523) recs.
Proof.
  destruct (extract_recommendations_total pages) as (recs & H).
  exists recs; split; [assumption|]. apply Forall_forall. intros rec Hin.
  eapply extract_recommendations_incl in Hin; eauto.
  apply appended_inv in Hin. destruct Hin as (t & m & _ & _ & -> & _).
  pose proof (details_within_limits (group t m 1) (strip (group t m 2))
                (group t m 3) (slice t (m_end m) (m_end m + 3500))) as Hl.
  fold (record_of_match t m) in Hl.
  destruct Hl as (Hd & Hr & Hi & _).
  set (rec := record_of_match t m) in *. clearbody rec.
  unfold desc_full. splits.
  - destruct (nonempty (rationale rec)), (nonempty (impact rec));
      rewrite <- ?app_assoc;
      try (rewrite firstn_app, Nat.sub_diag, firstn_all; simpl;
           apply app_nil_r);
      apply firstn_all.
  - intros -> ->. reflexivity.
  - destruct (nonempty (rationale rec)), (nonempty (impact rec));
      repeat (rewrite ?length_app; cbn [length str list_ascii_of_string]);
      lia.
Qed.

Lemma index_fold_heights_before d keys : forall ws row r,
  r < row ->
  height_of (heights (fst (fold_left (index_step d) keys (ws, row)))) r
  = height_of (heights ws) r.
Proof.
  induction keys as [|k keys IH]; intros ws row r Hr; simpl; auto.
  rewrite IH by lia. simpl.
  destruct (row =? r) eqn:E; [apply Nat.eqb_eq in E; lia|reflexivity].
Qed.

Lemma index_fold_height d l1 k l2 : forall ws row,
  height_of (heights (fst (fold_left (index_step d) (l1 ++ k :: l2)
                                     (ws, row))))
            (row + length l1)
  = Some 30%Z.
Proof.
  induction l1 as [|x l1 IH]; intros ws row.
  - simpl app. cbn [fold_left index_step length].
    rewrite Nat.add_0_r, index_fold_heights_before by lia.
    simpl. rewrite Nat.eqb_refl. reflexivity.
  - simpl app. cbn [fold_left index_step length].
    replace (row + S (length l1)) with (row + 1 + length l1) by lia.
    apply IH.
Qed.

(** X16: in the index sheet the row of a section is the row whose height
    the loop sets: the section that is number i in the order of the
    sections (from 0) has row 5 + i, of height 30, and its Controls cell
    counts the rows below the two head rows of the sheet of the section. *)
Theorem index_rows_in_step
  (benchmark_title benchmark_version today : text) (d : sections)
  (index : sheet) (l1 : list text) (k : text) (l2 : list text) :
  create_index_sheet benchmark_title benchmark_version today d = Ok index ->
  sorted_keys d = Ok (l1 ++ k :: l2) ->
  nth_error (rows index) (length l1 + 4) = Some (index_row d k) /\
  height_of (heights index) (length l1 + 5) = Some 30%Z /\
  nth_error (index_row d k) 2
  = Some (CInt (Z.of_nat
                  (length (skipn 2 (rows (create_section_sheet
                                            benchmark_title k (section_name k)
                                            (section_recs d k))))))).
Proof.
  unfold create_index_sheet. intros H Hkeys. rewrite Hkeys in H.
  cbn [bind] in H. inversion H; subst index; clear H. splits.
  - match goal with
    | |- context [fold_left (index_step d) ?l (?ws, 5)] =>
        destruct (index_fold_rows d l ws 5) as (-> & _)
    end.
    cbn [rows append_row set_height new_sheet app].
    replace (length l1 + 4) with (S (S (S (S (length l1))))) by lia.
    cbn [nth_error].
    rewrite map_app, nth_error_app2; rewrite length_map; auto.
    rewrite Nat.sub_diag. reflexivity.
  - replace (length l1 + 5) with (5 + length l1) by lia.
    apply index_fold_height.
  - rewrite section_sheet_rows, length_map. reflexivity.
Qed.

Lemma index_rows_in_step_witness :
  create_index_sheet [] [] [] sections_example
  = Ok (match create_index_sheet [] [] [] sections_example with
        | Ok ws => ws
        | ValueError => new_sheet []
        end) /\
  sorted_keys sections_example
  = Ok ([str "1"] ++ str "1234567890123456789012345" :: []) /\
  height_of (heights (match create_index_sheet [] [] [] sections_example with
                      | Ok ws => ws
                      | ValueError => new_sheet []
                      end)) (length [str "1"] + 5) = Some 30%Z.
Proof.
  assert (H1 : create_index_sheet [] [] [] sections_example
               = Ok (match create_index_sheet [] [] [] sections_example with
                     | Ok ws => ws
                     | ValueError => new_sheet []
                     end)) by (vm_compute; reflexivity).
  assert (H2 : sorted_keys sections_example
               = Ok ([str "1"] ++ str "1234567890123456789012345" :: []))
    by (vm_compute; reflexivity).
  split; [exact H1|]. split; [exact H2|].
  apply (@index_rows_in_step [] [] [] sections_example _ _ _ _ H1 H2).
Defined.

(** ** The output path *)

Lemma split_no_sep c s : Forall (fun w => ~ In c w) (split c s).
Proof.
  induction s as [|a s IH]; simpl.
  - repeat constructor. auto.
  - destruct (Ascii.eqb a c) eqn:E.
    + constructor; auto.
    + apply Ascii.eqb_neq in E.
      destruct (split c s) as [|w l]; [repeat constructor; simpl; tauto|].
      inversion IH; subst. constructor; auto.
      simpl. intros [H|H]; auto.
Qed.

Lemma split_none c s : ~ In c s -> split c s = [s].
Proof.
  induction s as [|a s IH]; simpl; intros H; auto.
  destruct (Ascii.eqb a c) eqn:E.
  - apply Ascii.eqb_eq in E. subst. tauto.
  - rewrite IH by tauto. reflexivity.
Qed.

Lemma split_app c pre s :
  split c (pre ++ c :: s) = split c pre ++ split c s.
Proof.
  induction pre as [|a pre IH]; simpl.
  - rewrite Ascii.eqb_refl. reflexivity.
  - destruct (Ascii.eqb a c); rewrite IH; [reflexivity|].
    destruct (split c pre) as [|w l] eqn:E; [|reflexivity].
    exfalso. destruct (split_head c pre) as (w & l & E' & _). congruence.
Qed.

Lemma rfind_none c s : ~ In c s -> rfind c s = None.
Proof.
  induction s as [|a s IH]; simpl; intros H; auto.
  rewrite IH by tauto.
  destruct (Ascii.eqb a c) eqn:E; auto.
  apply Ascii.eqb_eq in E. subst. tauto.
Qed.

Lemma rfind_last c base ext :
  ~ In c ext -> rfind c (base ++ c :: ext) = Some (length base).
Proof.
  intros H. induction base as [|a base IH]; simpl.
  - rewrite rfind_none by assumption. rewrite Ascii.eqb_refl. reflexivity.
  - rewrite IH. reflexivity.
Qed.

Lemma last_Forall {A : Type} (P : A -> Prop) (l : list A) d :
  Forall P l -> P d -> P (last l d).
Proof.
  induction 1 as [|x l Hx Hl IH]; intros Hd; simpl; auto.
  destruct l; auto.
Qed.

Lemma path_name_no_sep p : ~ In "/"%char (path_name p).
Proof.
  unfold path_name. apply last_Forall; [|simpl; tauto].
  apply Forall_forall. intros w Hw. apply filter_In in Hw.
  destruct Hw as (Hw & _).
  pose proof (split_no_sep "/" p) as H. rewrite Forall_forall in H. auto.
Qed.

(** The name of a path that ends with a component which is not empty, not
    a single dot and holds no separator. *)
Lemma path_name_last dir name :
  dir = [] \/ (exists d, dir = d ++ ["/"%char]) ->
  name <> [] -> name <> str "." -> ~ In "/"%char name ->
  path_name (dir ++ name) = name.
Proof.
  intros Hdir Hne Hdot Hsep. unfold path_name.
  assert (Hkeep : (nonempty name && negb (text_eqb name (str ".")))%bool = true).
  { destruct name as [|a n]; [congruence|].
    unfold text_eqb. destruct (text_eq_dec (a :: n) (str ".")); [congruence|].
    reflexivity. }
  destruct Hdir as [->|(d & ->)].
  - simpl app. rewrite split_none by assumption. cbn [filter].
    rewrite Hkeep. reflexivity.
  - rewrite <- app_assoc. simpl app. rewrite split_app, filter_app.
    rewrite (@split_none "/" name Hsep). cbn [filter]. rewrite Hkeep.
    apply last_last.
Qed.

(** X17: without an output argument, the output of a run on a path whose
    last component is "<base>.<ext>" is "<base>_Audit_Checklist.xlsx": the
    directory of the input and its suffix are dropped, dots inside the
    base are kept. *)
Theorem default_output_path (dir base ext : text) :
  dir = [] \/ (exists d, dir = d ++ ["/"%char]) ->
  base <> [] -> ext <> [] ->
  ~ In "/"%char base -> ~ In "/"%char ext -> ~ In "."%char ext ->
  output_path (dir ++ base ++ "."%char :: ext) None None
  = base ++ str "_Audit_Checklist.xlsx".
Proof.
  intros Hdir Hb He Hsb Hse Hde. unfold output_path, path_stem.
  rewrite path_name_last; auto.
  - rewrite rfind_last by assumption.
    assert (Hlen : ((0 <? length base)
                    && (length base <? length (base ++ "."%char :: ext) - 1))%bool
                   = true).
    { rewrite length_app. simpl length.
      destruct base; [congruence|]. destruct ext; [congruence|].
      apply andb_true_intro; split; apply Nat.ltb_lt; simpl; lia. }
    rewrite Hlen, firstn_app, Nat.sub_diag, firstn_all. simpl.
    rewrite app_nil_r. reflexivity.
  - destruct base; [congruence|]. discriminate.
  - destruct base as [|a b]; [congruence|]. destruct ext; [congruence|].
    destruct b; discriminate.
  - intros H. apply in_app_or in H. destruct H as [H|[H|H]]; auto.
    discriminate H.
Qed.

Lemma default_output_path_witness :
  output_path (str "reports/2024/" ++ str "CIS_Ubuntu_22.04" ++ "."%char
               :: str "pdf") None None
  = str "CIS_Ubuntu_22.04" ++ str "_Audit_Checklist.xlsx".
Proof.
  apply (@default_output_path (str "reports/2024/") (str "CIS_Ubuntu_22.04")
           (str "pdf")).
  - right. exists (str "reports/2024"). reflexivity.
  - discriminate.
  - discriminate.
  - vm_compute. intuition discriminate.
  - vm_compute. intuition discriminate.
  - vm_compute. intuition discriminate.
Defined.

(** X18: a positional output argument that is not empty is the output
    path, whatever [--output] says; an empty one is passed over.  Without
    both, the output is the stem of the input and "_Audit_Checklist.xlsx",
    and the stem holds no "/": the file lies in the working directory. *)
Theorem output_path_choice (input_pdf : text) (output : option text) :
  (forall a s, output_path input_pdf (Some (a :: s)) output = a :: s) /\
  output_path input_pdf (Some []) output = output_path input_pdf None output /\
  output_path input_pdf None (Some []) = output_path input_pdf None None /\
  output_path input_pdf None None
  = path_stem input_pdf ++ str "_Audit_Checklist.xlsx" /\
  ~ In "/"%char (output_path input_pdf None None).
Proof.
  splits; try reflexivity.
  unfold output_path. intros H. apply in_app_or in H. destruct H as [H|H].
  - unfold path_stem in H.
    assert (Hn := path_name_no_sep input_pdf).
    destruct (rfind "." (path_name input_pdf)) as [i|]; [|auto].
    destruct ((0 <? i) && (i <? length (path_name input_pdf) - 1))%bool; auto.
    apply in_firstn in H. auto.
  - vm_compute in H. intuition discriminate.
Qed.
